(** * NFsim core (NFcore.hh): a shallow embedding and its checked properties

    The development follows [src/NFcore/NFcore.hh].  Member functions whose
    bodies are written inline in the header are transcribed from those bodies.
    Member functions that the header only declares are modelled from the
    specification; every such definition says so in its doc comment.

    Conventions.
    - C++ [int] values are [Z], with the wrap-around of a conversion
      written out where one happens; array subscripts are [nat].
    - A pointer to a [Molecule] is a [nat] handle into a finite store
      ([gmap nat Molecule]); the null pointer ([NOBOND = 0]) is [None].
    - A pointer to a [Complex] is a [Z] address, the null pointer being [0].
    - C++ [double] values are IEEE 754 binary64 numbers, the kernel's
      primitive floats, with their rounding.
    - Undefined behaviour (an out-of-range subscript, dereferencing
      [begin()] of an empty set) is the result [None]. *)

From Stdlib Require Import ZArith QArith Qpower Lqa Lia Bool List Sorted Floats.
From stdpp Require Import gmap list strings.

Local Open Scope Z_scope.

(* ===================================================================== *)
(** ** [std::set<int>]: an ordered set of integers *)
(* ===================================================================== *)

(** The container keeps its elements in strictly increasing order and
    iteration starts at the smallest one; a strictly increasing list is
    exactly the sequence that [begin() .. end()] walks through. *)
Module StdSet.

Definition t : Type := list Z.

Definition wf (s : t) : Prop := StronglySorted Z.lt s.

Definition empty : t := [].

(** [size()] *)
Definition size (s : t) : Z := Z.of_nat (length s).

(** [*begin()]; undefined on the empty set. *)
Definition deref_begin (s : t) : option Z := head s.

(** [clear()] *)
Definition clear (_ : t) : t := [].

(** [insert(x)]: the new set and the [second] component of the returned
    pair, which tells whether the element was newly inserted. *)
Fixpoint insert_value (x : Z) (s : t) : t * bool :=
  match s with
  | [] => ([x], true)
  | y :: s' =>
      if x <? y then (x :: y :: s', true)
      else if x =? y then (y :: s', false)
      else let r := insert_value x s' in (y :: fst r, snd r)
  end.

(** [erase(x)] by key. *)
Fixpoint erase (x : Z) (s : t) : t :=
  match s with
  | [] => []
  | y :: s' =>
      if x <? y then y :: s'
      else if x =? y then s'
      else y :: erase x s'
  end.

End StdSet.

(* ===================================================================== *)
(** ** [class Molecule]: the data members and the inline member functions *)
(* ===================================================================== *)

Abbreviation MolPtr := nat (only parsing).

(** [static const int] members of [Molecule]. *)
Definition NOT_IN_RXN : Z := -1.
Definition NOSTATE : Z := -1.
Definition NOINDEX : Z := -1.

(** The data members of [Molecule] that the verified operations read or
    write.  [population_type] stands for [parentMoleculeType->isPopulationType()]. *)
Record Molecule : Type := mkMolecule {
  isAliveInSim : bool;
  ID_complex : Z;
  ID_unique : Z;
  population_type : bool;
  population_count : Z;
  component : list Z;
  bond : list (option MolPtr);
  indexOfBond : list Z;
  isObservable : list Z;
  rxnListMappingId2 : list StdSet.t
}.

Definition with_rxnListMappingId2 (m : Molecule) (v : list StdSet.t) : Molecule :=
  mkMolecule (isAliveInSim m) (ID_complex m) (ID_unique m) (population_type m)
             (population_count m) (component m) (bond m) (indexOfBond m)
             (isObservable m) v.

Definition with_bond (m : Molecule) (b : list (option MolPtr)) (ix : list Z) : Molecule :=
  mkMolecule (isAliveInSim m) (ID_complex m) (ID_unique m) (population_type m)
             (population_count m) (component m) b ix
             (isObservable m) (rxnListMappingId2 m).

Definition with_ID_complex (m : Molecule) (c : Z) : Molecule :=
  mkMolecule (isAliveInSim m) c (ID_unique m) (population_type m)
             (population_count m) (component m) (bond m) (indexOfBond m)
             (isObservable m) (rxnListMappingId2 m).

Definition with_component (m : Molecule) (c : list Z) : Molecule :=
  mkMolecule (isAliveInSim m) (ID_complex m) (ID_unique m) (population_type m)
             (population_count m) c (bond m) (indexOfBond m)
             (isObservable m) (rxnListMappingId2 m).

Definition with_population_count (m : Molecule) (n : Z) : Molecule :=
  mkMolecule (isAliveInSim m) (ID_complex m) (ID_unique m) (population_type m)
             n (component m) (bond m) (indexOfBond m)
             (isObservable m) (rxnListMappingId2 m).

(** [int getRxnListMappingId(int rxnIndex)]:
    [(rxnListMappingId2[rxnIndex].size() > 0) ? *rxnListMappingId2[rxnIndex].begin() : -1] *)
Definition getRxnListMappingId (m : Molecule) (rxnIndex : nat) : option Z :=
  s ← rxnListMappingId2 m !! rxnIndex;
  if 0 <? StdSet.size s then StdSet.deref_begin s else Some (-1).

(** [std::set<int> getRxnListMappingSet(int rxnIndex)] *)
Definition getRxnListMappingSet (m : Molecule) (rxnIndex : nat) : option StdSet.t :=
  rxnListMappingId2 m !! rxnIndex.

(** [bool setRxnListMappingId(int rxnIndex, int rxnListMappingId)]: the
    molecule after the call and the returned flag. *)
Definition setRxnListMappingId (m : Molecule) (rxnIndex : nat) (rxnListMappingId : Z)
  : option (Molecule * bool) :=
  s ← rxnListMappingId2 m !! rxnIndex;
  if rxnListMappingId =? -1 then
    Some (with_rxnListMappingId2 m (<[rxnIndex := StdSet.clear s]> (rxnListMappingId2 m)), true)
  else
    let it := StdSet.insert_value rxnListMappingId s in
    Some (with_rxnListMappingId2 m (<[rxnIndex := fst it]> (rxnListMappingId2 m)), snd it).

(** [void deleteRxnListMappingId(int rxnIndex, int rxnListMappingId)] *)
Definition deleteRxnListMappingId (m : Molecule) (rxnIndex : nat) (rxnListMappingId : Z)
  : option Molecule :=
  s ← rxnListMappingId2 m !! rxnIndex;
  Some (with_rxnListMappingId2 m
          (<[rxnIndex := StdSet.erase rxnListMappingId s]> (rxnListMappingId2 m))).

(** The calls through which a molecule's mapping-id sets change. *)
Inductive MappingOp : Type :=
| OpSet (rxnIndex : nat) (id : Z)
| OpDelete (rxnIndex : nat) (id : Z).

Definition run_op (op : MappingOp) (m : Molecule) : option Molecule :=
  match op with
  | OpSet r id => fst <$> setRxnListMappingId m r id
  | OpDelete r id => deleteRxnListMappingId m r id
  end.

Fixpoint run_ops (ops : list MappingOp) (m : Molecule) : option Molecule :=
  match ops with
  | [] => Some m
  | op :: ops' => m' ← run_op op m; run_ops ops' m'
  end.

(** The members of [class MoleculeType] that shape a new molecule:
    [numOfComponents], [defaultCompState], [population_type] and the number
    of reactions the type can take part in ([getReactionCount()]). *)
Module MoleculeType.
Record t : Type := mk {
  numOfComponents : nat;
  defaultCompState : list Z;
  population_type : bool;
  reactionCount : nat
}.
End MoleculeType.

(** Modelled from the spec: the constructor [Molecule(MoleculeType *, int)]
    is only declared.  A new molecule is alive, carries the unique id it is
    given, stands for one molecule, has its components in their default
    states and all sites open, and takes part in no reaction: one empty
    mapping-id set per reaction of its type. *)
Definition newMolecule (mt : MoleculeType.t) (uid : Z) (cid : Z) : Molecule :=
  mkMolecule true cid uid (MoleculeType.population_type mt) 1
             (take (MoleculeType.numOfComponents mt)
                   (MoleculeType.defaultCompState mt
                      ++ replicate (MoleculeType.numOfComponents mt) NOSTATE))
             (replicate (MoleculeType.numOfComponents mt) None)
             (replicate (MoleculeType.numOfComponents mt) NOINDEX)
             []
             (replicate (MoleculeType.reactionCount mt) StdSet.empty).

(** What every mapping-id set of a molecule satisfies: it is ordered, and
    [-1] is never stored in it (a call with [-1] clears instead). *)
Definition mapping_inv (m : Molecule) : Prop :=
  Forall (λ s, StdSet.wf s ∧ -1 ∉ s) (rxnListMappingId2 m).

(* ===================================================================== *)
(** ** [class ComplexList]: the public iterator *)
(* ===================================================================== *)

Abbreviation ComplexPtr := Z (only parsing).

(** [allComplexes] and the position of [complexIter_public] in it
    ([allComplexes.begin() + complexIter_public]). *)
Record ComplexList : Type := mkComplexList {
  allComplexes : list ComplexPtr;
  useComplex : bool;
  complexIter_public : nat
}.

(** [void resetComplexIter() { complexIter_public = allComplexes.begin(); }] *)
Definition resetComplexIter (cl : ComplexList) : ComplexList :=
  mkComplexList (allComplexes cl) (useComplex cl) 0.

(** [Complex * nextComplex()]:
    [complexIter_public < allComplexes.end() ? *complexIter_public++ : 0] *)
Definition nextComplex (cl : ComplexList) : ComplexPtr * ComplexList :=
  if (complexIter_public cl <? length (allComplexes cl))%nat then
    (default 0 (allComplexes cl !! complexIter_public cl),
     mkComplexList (allComplexes cl) (useComplex cl) (S (complexIter_public cl)))
  else (0, cl).

(** [n] successive calls of [nextComplex()]: the returned pointers in call
    order and the list afterwards. *)
Fixpoint nextComplex_calls (n : nat) (cl : ComplexList) : list ComplexPtr * ComplexList :=
  match n with
  | O => ([], cl)
  | S n' =>
      let r := nextComplex cl in
      let rs := nextComplex_calls n' (snd r) in
      (fst r :: fst rs, snd rs)
  end.

(* ===================================================================== *)
(** ** Functions that terminate the process *)
(* ===================================================================== *)

(** A computation that writes to [cout]/[cerr] and either returns a value
    or leaves through [exit(code)]. *)
Module Proc.

Inductive Stream : Type := Cout | Cerr.

Inductive Outcome (A : Type) : Type :=
| Returned (a : A)
| Exited (code : Z).
Arguments Returned {A} a.
Arguments Exited {A} code.

Record Run (A : Type) : Type := mkRun {
  written : list (Stream * string);
  outcome : Outcome A
}.
Arguments mkRun {A} written outcome.
Arguments written {A} r.
Arguments outcome {A} r.

Definition ret {A} (a : A) : Run A := mkRun [] (Returned a).

Definition bind {A B} (c : Run A) (k : A → Run B) : Run B :=
  match outcome c with
  | Returned a => let r := k a in mkRun (written c ++ written r) (outcome r)
  | Exited code => mkRun (written c) (Exited code)
  end.

Definition write (s : Stream) (msg : string) : Run unit := mkRun [(s, msg)] (Returned tt).

Definition exit {A} (code : Z) : Run A := mkRun [] (Exited code).

Definition exit_code {A} (r : Run A) : option Z :=
  match outcome r with
  | Returned _ => None
  | Exited code => Some code
  end.

End Proc.

Notation "c1 ;;; c2" := (Proc.bind c1 (fun _ => c2))
  (at level 100, c2 at level 200, right associativity).

(** [void System::getLocalFunction(std::string funcName) const]:
    [cout<<"getLocalFunction not yet implemented."<<endl; exit(1);] *)
Definition System_getLocalFunction (funcName : string) : Proc.Run unit :=
  Proc.write Proc.Cout "getLocalFunction not yet implemented." ;;;
  Proc.exit 1.

(** [virtual int ReactionClass::getDORreactantPosition() const], the body
    every reaction class that does not override it runs:
    two lines on [cerr], then [exit(1); return -1;]. *)
Definition ReactionClass_getDORreactantPosition : Proc.Run Z :=
  Proc.write Proc.Cerr
    "Trying to get DOR reactant Position from a reaction that is not of type DOR!" ;;;
  Proc.write Proc.Cerr "this is an internal error, and so I will quit." ;;;
  Proc.exit (A := unit) 1 ;;;
  Proc.ret (-1).

(** [virtual int ReactionClass::getDORreactantPosition2() const] *)
Definition ReactionClass_getDORreactantPosition2 : Proc.Run Z :=
  Proc.write Proc.Cerr
    "Trying to get DOR reactant Position2 from a reaction that is not of type DOR2!" ;;;
  Proc.write Proc.Cerr "this is an internal error, and so I will quit." ;;;
  Proc.exit (A := unit) 1 ;;;
  Proc.ret (-1).

(** Modelled from the spec: the two kinds of fatal error the specification
    tells apart, and the exit code it assigns to each ("model-validation
    failures exit 1; runtime invariants that imply a bug exit 2"). *)
Inductive ErrorKind : Type := ModelValidation | InternalInvariant.

Definition spec_exit_code (k : ErrorKind) : Z :=
  match k with
  | ModelValidation => 1
  | InternalInvariant => 2
  end.

(* ===================================================================== *)
(** ** Results of operations that a firing may reject *)
(* ===================================================================== *)

(** The reasons for which a selected firing is rejected at apply time. *)
Inductive Rejection : Type :=
| SiteOccupied
| SiteUnbound
| PopulationUnderflow
| ComplexMergeForbidden.

(** An operation succeeds with a value, is rejected, or stops the
    simulation ([Abort]: an internal error, or a pointer or subscript that
    does not denote an object). *)
Inductive Res (A : Type) : Type :=
| Ok (a : A)
| Rejected (e : Rejection)
| Abort.
Arguments Ok {A} a.
Arguments Rejected {A} e.
Arguments Abort {A}.

#[global] Instance Res_ret : MRet Res := λ A a, Ok a.

#[global] Instance Res_bind : MBind Res := λ A B k c,
  match c with
  | Ok a => k a
  | Rejected e => Rejected e
  | Abort => Abort
  end.

Definition of_option {A} (o : option A) : Res A :=
  match o with
  | Some a => Ok a
  | None => Abort
  end.

(* ===================================================================== *)
(** ** The molecule graph and its mutation primitives *)
(* ===================================================================== *)

(** All molecule instances of a system, by handle. *)
Abbreviation MolStore := (gmap nat Molecule).

(** [int getComponentState(int cIndex) const { return component[cIndex]; }] *)
Definition getComponentState (M : Molecule) (cIndex : nat) : option Z :=
  component M !! cIndex.

(** [int getComponentIndexOfBond(int cIndex) const { return indexOfBond[cIndex]; }] *)
Definition getComponentIndexOfBond (M : Molecule) (cIndex : nat) : option Z :=
  indexOfBond M !! cIndex.

(** [int getComplexID() const { return ID_complex; }] *)
Definition getComplexID (M : Molecule) : Z := ID_complex M.

(** Modelled from the spec: [Molecule::isBindingSiteOpen] is only declared;
    a site is open when [bond(m,i)] is NONE. *)
Definition isBindingSiteOpen (M : Molecule) (bIndex : nat) : option bool :=
  b ← bond M !! bIndex;
  _ ← indexOfBond M !! bIndex;
  Some (bool_decide (b = None)).

(** Modelled from the spec: [Molecule::isBindingSiteBonded] is only declared. *)
Definition isBindingSiteBonded (M : Molecule) (bIndex : nat) : option bool :=
  negb <$> isBindingSiteOpen M bIndex.

(** The half-edge stored at site [i] of molecule [m]: the partner molecule
    ([bond[i]]) and the partner's component index ([indexOfBond[i]]). *)
Definition bondAt (g : MolStore) (m : MolPtr) (i : nat) : option (MolPtr * Z) :=
  M ← g !! m;
  b ← bond M !! i;
  n ← b;
  ix ← indexOfBond M !! i;
  Some (n, ix).

(** Writes one half-edge, [bond[i] = b; indexOfBond[i] = ix], on molecule
    [m]; the step that the modelled [bind] and [unbind] take on each side. *)
Definition set_site (g : MolStore) (m : MolPtr) (i : nat) (b : option MolPtr) (ix : Z)
  : MolStore :=
  match g !! m with
  | Some M => <[m := with_bond M (<[i := b]> (bond M)) (<[i := ix]> (indexOfBond M))]> g
  | None => g
  end.

(** The molecules directly bonded to [m]: the non-null entries of [bond]. *)
Definition bondedNeighbours (g : MolStore) (m : MolPtr) : gset nat :=
  match g !! m with
  | Some M => list_to_set (omap id (bond M))
  | None => ∅
  end.

(** One more layer of the breadth-first walk of the modelled traversal. *)
Definition expandNeighbourhood (g : MolStore) (visited : gset nat) : gset nat :=
  visited ∪ ⋃ (bondedNeighbours g <$> elements visited).

(** Modelled from the spec: [Molecule::traverseBondedNeighborhood] is only
    declared; a breadth-first walk of at most [depth_limit] edges, unbounded
    for [NO_LIMIT] ([None]; the number of molecules bounds the depth of any
    walk), returning the molecules reached without duplicates. *)
Definition traverseBondedNeighborhood (g : MolStore) (m : MolPtr) (traversalLimit : option nat)
  : gset nat :=
  Nat.iter (default (size g) traversalLimit) (expandNeighbourhood g) {[m]}.

(** The molecules whose [ID_complex] is [c]: the membership of complex [c]. *)
Definition complexMembers (g : MolStore) (c : Z) : MolStore :=
  filter (λ kv, ID_complex kv.2 = c) g.

(** Modelled from the spec: [Complex::refactorToNewComplex] is only
    declared; the [complex_id] of every member of [c_old] is rewritten. *)
Definition refactorToNewComplex (g : MolStore) (c_old c_new : Z) : MolStore :=
  (λ M, if bool_decide (ID_complex M = c_old) then with_ID_complex M c_new else M) <$> g.

(** Modelled from the spec: merge on bind; the smaller membership is
    moved into the larger one. *)
Definition mergeComplexes (g : MolStore) (c1 c2 : Z) : MolStore :=
  if bool_decide (c1 = c2) then g
  else if (size (complexMembers g c1) <? size (complexMembers g c2))%nat
       then refactorToNewComplex g c1 c2
       else refactorToNewComplex g c2 c1.

(** Modelled from the spec: the complex tracker is only declared; a new
    complex gets an identifier that no molecule carries (the reuse of freed
    identifiers through the queue [nextAvailableComplex] is not modelled). *)
Definition freshComplexID (g : MolStore) : Z :=
  1 + map_fold (λ _ M acc, Z.max (ID_complex M) acc) (-1) g.

(** Modelled from the spec: split on unbind; a breadth-first walk from one
    endpoint; if the other endpoint is reached nothing changes, otherwise
    the fragment that is no longer reachable gets a new complex. *)
Definition splitComplex (g : MolStore) (m1 m2 : MolPtr) : MolStore :=
  let reached := traverseBondedNeighborhood g m1 None in
  if bool_decide (m2 ∈ reached) then g
  else
    let fragment := traverseBondedNeighborhood g m2 None in
    let c_new := freshComplexID g in
    map_imap (λ k M, Some (if bool_decide (k ∈ fragment) then with_ID_complex M c_new else M)) g.

(** Modelled from the spec: [Molecule::bind(m1, cIndex1, m2, cIndex2)] is
    only declared.  Both sites must be open, otherwise the call fails with
    [SiteOccupied]; on success both half-edges are set and the complexes of
    the two molecules are merged when they differ. *)
Definition bind (g : MolStore) (m1 : MolPtr) (cIndex1 : nat) (m2 : MolPtr) (cIndex2 : nat)
  : Res MolStore :=
  M1 ← of_option (g !! m1);
  M2 ← of_option (g !! m2);
  open1 ← of_option (isBindingSiteOpen M1 cIndex1);
  open2 ← of_option (isBindingSiteOpen M2 cIndex2);
  if open1 && open2 then
    let g1 := set_site g m1 cIndex1 (Some m2) (Z.of_nat cIndex2) in
    let g2 := set_site g1 m2 cIndex2 (Some m1) (Z.of_nat cIndex1) in
    Ok (mergeComplexes g2 (ID_complex M1) (ID_complex M2))
  else Rejected SiteOccupied.

(** Modelled from the spec: [Molecule::unbind(m1, bSiteIndex)] is only
    declared.  The site must be bonded, otherwise the call fails with
    [SiteUnbound]; on success both half-edges are removed, the complex is
    split if the bond was its only connection, and the partner's unique id
    and component index are returned for logging. *)
Definition unbind (g : MolStore) (m1 : MolPtr) (bSiteIndex : nat) : Res (MolStore * list Z) :=
  M1 ← of_option (g !! m1);
  b ← of_option (bond M1 !! bSiteIndex);
  ix ← of_option (indexOfBond M1 !! bSiteIndex);
  match b with
  | None => Rejected SiteUnbound
  | Some m2 =>
      M2 ← of_option (g !! m2);
      if 0 <=? ix then
        let g1 := set_site g m1 bSiteIndex None NOINDEX in
        let g2 := set_site g1 m2 (Z.to_nat ix) None NOINDEX in
        Ok (splitComplex g2 m1 m2, [ID_unique M2; ix])
      else Abort
  end.

(** Modelled from the spec: [Molecule::setComponentState(cIndex, newValue)]
    is only declared; the state of the component is updated. *)
Definition setComponentState (g : MolStore) (m : MolPtr) (cIndex : nat) (newValue : Z)
  : Res MolStore :=
  M ← of_option (g !! m);
  _ ← of_option (component M !! cIndex);
  Ok (<[m := with_component M (<[cIndex := newValue]> (component M))]> g).

(** Modelled from the spec: [Molecule::setPopulation], [incrementPopulation]
    and [decrementPopulation] are only declared; they are valid only for a
    molecule of a population type and return whether they succeeded; the
    count never goes below 0. *)
Definition setPopulation (M : Molecule) (count : Z) : Molecule * bool :=
  if population_type M && (0 <=? count)
  then (with_population_count M count, true) else (M, false).

Definition incrementPopulation (M : Molecule) : Molecule * bool :=
  if population_type M
  then (with_population_count M (population_count M + 1), true) else (M, false).

Definition decrementPopulation (M : Molecule) : Molecule * bool :=
  if population_type M && (0 <? population_count M)
  then (with_population_count M (population_count M - 1), true) else (M, false).

(** I1, bond symmetry: a half-edge from [(m,i)] to [(n,j)] has the half-edge
    from [(n,j)] back to [(m,i)]. *)
Definition bond_symmetric (g : MolStore) : Prop :=
  ∀ m i n ix, bondAt g m i = Some (n, ix) →
    0 ≤ ix ∧ bondAt g n (Z.to_nat ix) = Some (m, Z.of_nat i).

(** A site that exists: the molecule is in the store and the subscript is
    within both bond arrays. *)
Definition site_exists (g : MolStore) (m : MolPtr) (i : nat) : Prop :=
  ∃ M, g !! m = Some M ∧ (i < length (bond M))%nat ∧ (i < length (indexOfBond M))%nat.

(* ===================================================================== *)
(** ** Transformation sets and mapping sets *)
(* ===================================================================== *)

(** One entry of a mapping set: the concrete molecule a template node is
    matched to, and the concrete component index of each template component. *)
Record Mapping : Type := mkMapping {
  mappedMolecule : MolPtr;
  mappedComponents : list nat
}.

Abbreviation MappingSet := (list Mapping).

(** The edits of a transformation set, on template nodes and components. *)
Inductive Transformation : Type :=
| StateChange (t : nat) (comp : nat) (new_state : Z)
| AddBond (t1 : nat) (i : nat) (t2 : nat) (j : nat)
| DeleteBond (t : nat) (i : nat)
| AddMolecule (mt : MoleculeType.t)
| DeleteMolecule (t : nat)
| IncrementPopulation (t : nat)
| DecrementPopulation (t : nat).

Definition resolveMolecule (ms : MappingSet) (t : nat) : Res MolPtr :=
  of_option (mappedMolecule <$> ms !! t).

Definition resolveSite (ms : MappingSet) (t : nat) (comp : nat) : Res (MolPtr * nat) :=
  of_option (mp ← ms !! t; i ← mappedComponents mp !! comp; Some (mappedMolecule mp, i)).

(** The state a transformation set works on: the next unique id, the
    molecule graph, and the molecules touched so far. *)
Record Edit : Type := mkEdit {
  nextUid : Z;
  graph : MolStore;
  touched : list MolPtr
}.

(** Modelled from the spec: the transformation classes are not in the
    header.  One edit applied to the molecules of a mapping set.  A bind
    whose partners are in the same complex is refused when the rule forbids
    intra-complex bonds; a molecule must be unbonded before it is deleted. *)
Definition applyTransformation (sameComplexForbidden : bool) (ms : MappingSet)
    (tr : Transformation) (e : Edit) : Res Edit :=
  let g := graph e in
  match tr with
  | StateChange t comp new_state =>
      site ← resolveSite ms t comp;
      g' ← setComponentState g site.1 site.2 new_state;
      Ok (mkEdit (nextUid e) g' (touched e ++ [site.1]))
  | AddBond t1 i t2 j =>
      s1 ← resolveSite ms t1 i;
      s2 ← resolveSite ms t2 j;
      M1 ← of_option (g !! s1.1);
      M2 ← of_option (g !! s2.1);
      if sameComplexForbidden && bool_decide (getComplexID M1 = getComplexID M2)
      then Rejected ComplexMergeForbidden
      else
        g' ← bind g s1.1 s1.2 s2.1 s2.2;
        Ok (mkEdit (nextUid e) g' (touched e ++ [s1.1; s2.1]))
  | DeleteBond t i =>
      site ← resolveSite ms t i;
      r ← unbind g site.1 site.2;
      Ok (mkEdit (nextUid e) r.1 (touched e ++ site.1 :: omap id [fst <$> bondAt g site.1 site.2]))
  | AddMolecule mt =>
      let p := fresh (dom g) in
      Ok (mkEdit (nextUid e + 1)
                 (<[p := newMolecule mt (nextUid e) (freshComplexID g)]> g)
                 (touched e ++ [p]))
  | DeleteMolecule t =>
      m ← resolveMolecule ms t;
      M ← of_option (g !! m);
      if forallb (λ b, bool_decide (b = None)) (bond M)
      then Ok (mkEdit (nextUid e)
                      (<[m := mkMolecule false (ID_complex M) (ID_unique M) (population_type M)
                                         (population_count M) (component M) (bond M)
                                         (indexOfBond M) (isObservable M)
                                         (rxnListMappingId2 M)]> g)
                      (touched e ++ [m]))
      else Abort
  | IncrementPopulation t =>
      m ← resolveMolecule ms t;
      M ← of_option (g !! m);
      let r := incrementPopulation M in
      if r.2 then Ok (mkEdit (nextUid e) (<[m := r.1]> g) (touched e ++ [m])) else Abort
  | DecrementPopulation t =>
      m ← resolveMolecule ms t;
      M ← of_option (g !! m);
      if population_type M then
        let r := decrementPopulation M in
        if r.2 then Ok (mkEdit (nextUid e) (<[m := r.1]> g) (touched e ++ [m]))
        else Rejected PopulationUnderflow
      else Abort
  end.

(** Modelled from the spec: the edits of a transformation set are applied
    in the order the rule fixes; the first rejection or abort ends the
    application and is its result. *)
Fixpoint applyTransformations (sameComplexForbidden : bool) (ms : MappingSet)
    (trs : list Transformation) (e : Edit) : Res Edit :=
  match trs with
  | [] => Ok e
  | tr :: trs' =>
      e' ← applyTransformation sameComplexForbidden ms tr e;
      applyTransformations sameComplexForbidden ms trs' e'
  end.

(* ===================================================================== *)
(** ** [double]: IEEE 754 binary64 *)
(* ===================================================================== *)

(** A C++ [double] is a binary64 floating-point number, the kernel's
    primitive [float]: [+], [-] and [==] on doubles are [PrimFloat.add],
    [PrimFloat.sub] and [PrimFloat.eqb], with their rounding (to nearest,
    ties to even). *)
Abbreviation double := PrimFloat.float (only parsing).

(** The rational number a finite double stands for; [None] for the
    infinities and NaN. *)
Definition double_value (x : double) : option Q :=
  match Prim2SF x with
  | S754_zero _ => Some 0%Q
  | S754_finite s m e => Some ((if s then -1 else 1) * inject_Z (Z.pos m) * Qpower 2 e)%Q
  | S754_infinity _ => None
  | S754_nan => None
  end.

(** Two doubles that are finite and stand for the same number. *)
Definition same_number (x y : double) : bool :=
  match double_value x, double_value y with
  | Some p, Some q => Qeq_bool p q
  | _, _ => false
  end.

(** The addition [x + y] is exact: the operands and the rounded result
    are finite, and the result stands for the sum of the numbers the
    operands stand for. *)
Definition exact_add (x y : double) : bool :=
  match double_value x, double_value y, double_value (PrimFloat.add x y) with
  | Some p, Some q, Some r => Qeq_bool r (p + q)
  | _, _, _ => false
  end.

(** The subtraction [x - y] is exact. *)
Definition exact_sub (x y : double) : bool :=
  match double_value x, double_value y, double_value (PrimFloat.sub x y) with
  | Some p, Some q, Some r => Qeq_bool r (p - q)
  | _, _, _ => false
  end.

(* ===================================================================== *)
(** ** [class ReactionClass]: the propensity *)
(* ===================================================================== *)

Module ReactionClass.

(** [static const int] members. *)
Definition NO_LIMIT : Z := -3.
Definition BASIC_RXN : Z := 0.
Definition DOR_RXN : Z := 1.
Definition OBS_DEPENDENT_RXN : Z := 2.
Definition POP_RXN : Z := 3.
Definition DOR2_RXN : Z := 4.

(** The data members [double baseRate] and [double a], the propensity. *)
Record t : Type := mk {
  baseRate : double;
  a : double
}.

(** [double getBaseRate() const { return baseRate; }] *)
Definition getBaseRate (r : t) : double := baseRate r.

(** [double get_a() const { return a; }] *)
Definition get_a (r : t) : double := a r.

Definition with_a (r : t) (v : double) : t := mk (baseRate r) v.

End ReactionClass.

(* ===================================================================== *)
(** ** [class System]: the total propensity *)
(* ===================================================================== *)

(** The data members [double a_tot] ("the sum of all a's (propensities) of
    all reactions"), [int globalEventCounter] and [allReactions]. *)
Record System : Type := mkSystem {
  a_tot : double;
  globalEventCounter : Z;
  allReactions : list ReactionClass.t
}.

(** [double get_A_tot() const { return a_tot; }] *)
Definition get_A_tot (s : System) : double := a_tot s.

(** [int getGlobalEventCounter() { return globalEventCounter; }] *)
Definition getGlobalEventCounter (s : System) : Z := globalEventCounter s.

Definition with_a_tot (s : System) (v : double) : System :=
  mkSystem v (globalEventCounter s) (allReactions s).

Definition with_allReactions (s : System) (rs : list ReactionClass.t) : System :=
  mkSystem (a_tot s) (globalEventCounter s) rs.

(** Modelled from the spec: the sum [sum_r a(r)] as a program computes
    it, the propensities of the registered reactions added up in binary64
    in registration order, starting from [0.0]. *)
Definition sum_a (rs : list ReactionClass.t) : double :=
  foldl (λ acc r, PrimFloat.add acc (ReactionClass.get_a r)) 0%float rs.

(** Modelled from the spec: [System::recompute_A_tot] is only declared;
    [a_tot] is set to the sum of the propensities of all reactions, and
    returned. *)
Definition recompute_A_tot (s : System) : System * double :=
  let total := sum_a (allReactions s) in (with_a_tot s total, total).

(** Modelled from the spec: [System::update_A_tot(r, old_a, new_a)] is
    only declared; the change of the propensity of reaction [r], the delta
    [new_a - old_a], is accumulated into [a_tot]. *)
Definition update_A_tot (s : System) (r : nat) (old_a new_a : double) : System :=
  with_a_tot s (PrimFloat.add (a_tot s) (PrimFloat.sub new_a old_a)).

(** Modelled from the spec: step 6 of the repair, for one rule whose
    propensity has changed to [new_a]: the rule keeps the new propensity,
    and the old and the new one are handed to [update_A_tot].  [None]: there
    is no reaction number [r]. *)
Definition change_propensity (s : System) (r : nat) (new_a : double) : option System :=
  R ← allReactions s !! r;
  Some (update_A_tot
          (with_allReactions s (<[r := ReactionClass.with_a R new_a]> (allReactions s)))
          r (ReactionClass.get_a R) new_a).

(** A series of such changes, each given by the number of the reaction and
    its new propensity. *)
Fixpoint change_propensities (s : System) (changes : list (nat * double)) : option System :=
  match changes with
  | [] => Some s
  | c :: changes' =>
      s1 ← change_propensity s c.1 c.2;
      change_propensities s1 changes'
  end.

(** I5, propensity sum, as the program can test it: [a_tot == sum] with
    the sum that [recompute_A_tot] would return. *)
Definition propensity_sum_ok (s : System) : Prop :=
  PrimFloat.eqb (get_A_tot s) (recompute_A_tot s).2 = true.

(** The sum of the numbers the propensities stand for, without rounding;
    [None] when one of them is not finite. *)
Fixpoint real_sum (rs : list ReactionClass.t) : option Q :=
  match rs with
  | [] => Some 0%Q
  | R :: rs' =>
      q ← double_value (ReactionClass.get_a R);
      t ← real_sum rs';
      Some (q + t)%Q
  end.

(** I5 read over the numbers: [a_tot] is finite and stands for the sum of
    the numbers the propensities stand for. *)
Definition propensity_sum_exact (s : System) : bool :=
  match double_value (a_tot s), real_sum (allReactions s) with
  | Some x, Some y => Qeq_bool x y
  | _, _ => false
  end.

(** Neither operation of [update_A_tot] rounds when the propensity of
    reaction [r] changes to [new_a]. *)
Definition update_is_exact (s : System) (r : nat) (new_a : double) : bool :=
  match allReactions s !! r with
  | Some R =>
      exact_sub new_a (ReactionClass.get_a R)
      && exact_add (a_tot s) (PrimFloat.sub new_a (ReactionClass.get_a R))
  | None => false
  end.

Fixpoint updates_are_exact (s : System) (changes : list (nat * double)) : bool :=
  match changes with
  | [] => true
  | c :: changes' =>
      update_is_exact s c.1 c.2
      && match change_propensity s c.1 c.2 with
         | Some s1 => updates_are_exact s1 changes'
         | None => false
         end
  end.

(** No addition of the summation that starts from [acc] rounds. *)
Fixpoint sum_is_exact (acc : double) (rs : list ReactionClass.t) : bool :=
  match rs with
  | [] => true
  | R :: rs' =>
      exact_add acc (ReactionClass.get_a R)
      && sum_is_exact (PrimFloat.add acc (ReactionClass.get_a R)) rs'
  end.

(* ===================================================================== *)
(** ** Process-wide state *)
(* ===================================================================== *)

(** The [static] data members of the header, [static int
    System::NULL_EVENT_COUNTER] and [static int Molecule::uniqueIdCount]:
    one cell each for the whole process, whatever the number of [System]
    objects. *)
Record Globals : Type := mkGlobals {
  NULL_EVENT_COUNTER : Z;
  uniqueIdCount : Z
}.

(** [static int getUniqueIdCount() { return uniqueIdCount; }] *)
Definition getUniqueIdCount (p : Globals) : Z := uniqueIdCount p.

(** A process that runs several simulations: the static members, and the
    [System] objects with their own (non-static) members. *)
Record Process : Type := mkProcess {
  statics : Globals;
  systems : list System
}.

(** [NULL_EVENT_COUNTER] read through the [System] object number [i]
    ([sys.NULL_EVENT_COUNTER], the same as [System::NULL_EVENT_COUNTER]):
    the member is [static], so the object plays no part in the value. *)
Definition System_NULL_EVENT_COUNTER (P : Process) (i : nat) : Z :=
  NULL_EVENT_COUNTER (statics P).

(** [Molecule::getUniqueIdCount()], called by the code of any [System]. *)
Definition Molecule_getUniqueIdCount (P : Process) (i : nat) : Z :=
  getUniqueIdCount (statics P).

(** [sys.getGlobalEventCounter()] for the [System] object number [i]. *)
Definition System_getGlobalEventCounter (P : Process) (i : nat) : option Z :=
  getGlobalEventCounter <$> systems P !! i.

(** What an event fired in one [System] can do.  The code that fires it is
    outside the header; whatever it is, it runs on the [System] object it is
    called on and on the static members, which the storage class makes
    accessible to it, and on no other [System] object.  [None]: the event
    runs into undefined behaviour. *)
Abbreviation Event := (Globals * System → option (Globals * System)) (only parsing).

(** The event [ev] fired in the [System] object number [i].  [None]: there
    is no such object, or the event is undefined. *)
Definition fireEvent (P : Process) (i : nat) (ev : Event) : option Process :=
  s ← systems P !! i;
  r ← ev (statics P, s);
  Some (mkProcess r.1 (<[i := r.2]> (systems P))).

(** An interleaving of events of the [System] objects of the process. *)
Fixpoint fireEvents (P : Process) (evs : list (nat * Event)) : option Process :=
  match evs with
  | [] => Some P
  | e :: evs' =>
      P1 ← fireEvent P e.1 e.2;
      fireEvents P1 evs'
  end.

(** [INT_MAX]: incrementing an [int] that holds it is undefined. *)
Definition INT_MAX : Z := 2 ^ 31 - 1.

(** Modelled from the spec: the statement that counts a null event is not
    in the header ("the firing is counted toward [NULL_EVENT_COUNTER]"); the
    counter goes up by one. *)
Definition countNullEvent : Event :=
  λ gs,
    if NULL_EVENT_COUNTER gs.1 <? INT_MAX
    then Some (mkGlobals (NULL_EVENT_COUNTER gs.1 + 1) (uniqueIdCount gs.1), gs.2)
    else None.

(** Modelled from the spec: the statement that numbers a new molecule is
    not in the header ([unique_id] is "monotone across simulation"); the
    count of unique ids goes up by one. *)
Definition countMolecule : Event :=
  λ gs,
    if uniqueIdCount gs.1 <? INT_MAX
    then Some (mkGlobals (NULL_EVENT_COUNTER gs.1) (uniqueIdCount gs.1 + 1), gs.2)
    else None.

(* ===================================================================== *)
(** ** A small model for concrete runs *)
(* ===================================================================== *)

(** The molecule type [A(s)], taking part in one rule. *)
Definition typeA : MoleculeType.t := MoleculeType.mk 1 [0] false 1.

(** Two molecules [A(s!1).A(s!1)], bonded to each other in complex 0. *)
Definition boundPair : MolStore :=
  {[ 0%nat := with_bond (newMolecule typeA 0 0) [Some 1%nat] [0];
     1%nat := with_bond (newMolecule typeA 1 0) [Some 0%nat] [0] ]}.

(** Two free molecules [A(s)], in the complexes 0 and 1. *)
Definition freePair : MolStore :=
  {[ 0%nat := newMolecule typeA 0 0; 1%nat := newMolecule typeA 1 1 ]}.

(* ===================================================================== *)
(** ** Containers of the header: [std::vector] and raw arrays *)
(* ===================================================================== *)

(** A value of type [int]. *)
Definition is_int (z : Z) : Prop := -2 ^ 31 ≤ z < 2 ^ 31.

Module StdVector.

(** The conversion of an [int] argument to [size_type] (64 bits): a
    negative value wraps around. *)
Definition to_size_type (i : Z) : Z := i mod 2 ^ 64.

(** The conversion of a [size_type] result to [int]: the low 32 bits, as a
    signed number. *)
Definition to_int (n : Z) : Z := (n + 2 ^ 31) mod 2 ^ 32 - 2 ^ 31.

(** [size()] *)
Definition size {A} (v : list A) : Z := Z.of_nat (length v).

(** The result of a bounds-checked access: the element, or the exception
    [std::out_of_range]. *)
Inductive Checked (A : Type) : Type :=
| Value (a : A)
| OutOfRange.
Arguments Value {A} a.
Arguments OutOfRange {A}.

Definition and_then {A B} (c : Checked A) (k : A → Checked B) : Checked B :=
  match c with
  | Value a => k a
  | OutOfRange => OutOfRange
  end.

(** [at(n)]: throws when [n >= size()]. *)
Definition at_ {A} (v : list A) (n : Z) : Checked A :=
  let pos := to_size_type n in
  if pos <? size v then
    match v !! Z.to_nat pos with
    | Some x => Value x
    | None => OutOfRange
    end
  else OutOfRange.

(** [operator[]]: not checked; undefined when [n >= size()]. *)
Definition subscript {A} (v : list A) (n : Z) : option A :=
  let pos := to_size_type n in
  if pos <? size v then v !! Z.to_nat pos else None.

(** [v[n] = x] *)
Definition assign {A} (v : list A) (n : Z) (x : A) : option (list A) :=
  let pos := to_size_type n in
  if pos <? size v then Some (<[Z.to_nat pos := x]> v) else None.

(** [push_back(x)] *)
Definition push_back {A} (v : list A) (x : A) : list A := v ++ [x].

End StdVector.

(** A raw array read [p[i]] with an [int] subscript: undefined outside the
    array. *)
Definition array_read {A} (p : list A) (i : Z) : option A :=
  if 0 <=? i then p !! Z.to_nat i else None.

(** A raw array write [p[i] = x]. *)
Definition array_write {A} (p : list A) (i : Z) (x : A) : option (list A) :=
  if (0 <=? i) && (i <? Z.of_nat (length p)) then Some (<[Z.to_nat i := x]> p) else None.

(* ===================================================================== *)
(** ** [class ComplexList]: the other inline members *)
(* ===================================================================== *)

(** [bool isUsingComplex() const { return useComplex; }] *)
Definition isUsingComplex (cl : ComplexList) : bool := useComplex cl.

(** [void setUseComplex(bool _useComplex) { useComplex = _useComplex; }] *)
Definition setUseComplex (cl : ComplexList) (_useComplex : bool) : ComplexList :=
  mkComplexList (allComplexes cl) _useComplex (complexIter_public cl).

(** [Complex * getComplex(int ID_complex) const { return allComplexes.at(ID_complex); }] *)
Definition getComplex (cl : ComplexList) (ID_complex : Z) : StdVector.Checked ComplexPtr :=
  StdVector.at_ (allComplexes cl) ID_complex.

(* ===================================================================== *)
(** ** [class System]: the reaction index table and the connectivity matrix *)
(* ===================================================================== *)

(** [void registerRxnIndex(int rxnId, int rxnPos, int rxnIndex)
      { rxnIndexMap[rxnId][rxnPos]=rxnIndex; }] on the member
    [int **rxnIndexMap]. *)
Definition registerRxnIndex (rxnIndexMap : list (list Z)) (rxnId rxnPos rxnIndex : Z)
  : option (list (list Z)) :=
  row ← array_read rxnIndexMap rxnId;
  row' ← array_write row rxnPos rxnIndex;
  array_write rxnIndexMap rxnId row'.

(** [int getRxnIndex(int rxnId, int rxnPos) const { return rxnIndexMap[rxnId][rxnPos]; }] *)
Definition getRxnIndex (rxnIndexMap : list (list Z)) (rxnId rxnPos : Z) : option Z :=
  row ← array_read rxnIndexMap rxnId;
  array_read row rxnPos.

(** [void setConnectedReactions(int rxn1, int rxn2) {connectedReactions[rxn1][rxn2] = true;}]
    on the member [std::vector<std::vector<bool>> connectedReactions]. *)
Definition setConnectedReactions (connectedReactions : list (list bool)) (rxn1 rxn2 : Z)
  : option (list (list bool)) :=
  row ← StdVector.subscript connectedReactions rxn1;
  row' ← StdVector.assign row rxn2 true;
  StdVector.assign connectedReactions rxn1 row'.

(** [bool areReactionsConnected(int rxn1, int rxn2) {return connectedReactions[rxn1][rxn2];}] *)
Definition areReactionsConnected (connectedReactions : list (list bool)) (rxn1 rxn2 : Z)
  : option bool :=
  row ← StdVector.subscript connectedReactions rxn1;
  StdVector.subscript row rxn2.

(** A series of calls of [setConnectedReactions]. *)
Fixpoint setConnectedReactions_all (connectedReactions : list (list bool))
    (calls : list (Z * Z)) : option (list (list bool)) :=
  match calls with
  | [] => Some connectedReactions
  | c :: calls' =>
      m ← setConnectedReactions connectedReactions c.1 c.2;
      setConnectedReactions_all m calls'
  end.

(* ===================================================================== *)
(** ** [class MoleculeType]: the containers and their inline accessors *)
(* ===================================================================== *)

Module MoleculeTypeLists.

(** The members [reactions], [reactionPositions], [indexOfDORrxns] and
    [molObs]; the elements of [reactions] and [molObs] are pointers. *)
Record t : Type := mk {
  reactions : list Z;
  reactionPositions : list Z;
  indexOfDORrxns : list Z;
  molObs : list Z
}.

(** [int getReactionCount() const { return reactions.size(); }] *)
Definition getReactionCount (mt : t) : Z := StdVector.to_int (StdVector.size (reactions mt)).

(** [int getNumOfMolObs() const { return (int)molObs.size(); }] *)
Definition getNumOfMolObs (mt : t) : Z := StdVector.to_int (StdVector.size (molObs mt)).

(** [MoleculesObservable * getMolObs(int obsIndex) const { return molObs.at(obsIndex); }] *)
Definition getMolObs (mt : t) (obsIndex : Z) : StdVector.Checked Z :=
  StdVector.at_ (molObs mt) obsIndex.

(** [void addMolObs(MoleculesObservable * mo) { molObs.push_back(mo); }] *)
Definition addMolObs (mt : t) (mo : Z) : t :=
  mk (reactions mt) (reactionPositions mt) (indexOfDORrxns mt)
     (StdVector.push_back (molObs mt) mo).

(** [int getNumOfDORrxns() const { return indexOfDORrxns.size(); }] *)
Definition getNumOfDORrxns (mt : t) : Z :=
  StdVector.to_int (StdVector.size (indexOfDORrxns mt)).

(** [ReactionClass * getDORrxn(int dorRxnIndex) const
      { return reactions.at(indexOfDORrxns.at(dorRxnIndex)); }] *)
Definition getDORrxn (mt : t) (dorRxnIndex : Z) : StdVector.Checked Z :=
  StdVector.and_then (StdVector.at_ (indexOfDORrxns mt) dorRxnIndex)
                     (StdVector.at_ (reactions mt)).

(** [int getDORrxnIndex(int dorRxnIndex) const { return indexOfDORrxns.at(dorRxnIndex); }] *)
Definition getDORrxnIndex (mt : t) (dorRxnIndex : Z) : StdVector.Checked Z :=
  StdVector.at_ (indexOfDORrxns mt) dorRxnIndex.

(** [int getDORrxnPosition(int dorRxnIndex) const
      { return reactionPositions.at(indexOfDORrxns.at(dorRxnIndex)); }] *)
Definition getDORrxnPosition (mt : t) (dorRxnIndex : Z) : StdVector.Checked Z :=
  StdVector.and_then (StdVector.at_ (indexOfDORrxns mt) dorRxnIndex)
                     (StdVector.at_ (reactionPositions mt)).

(** A series of calls of [addMolObs]. *)
Definition addMolObs_all (mt : t) (mos : list Z) : t := foldl addMolObs mt mos.

End MoleculeTypeLists.

(* ===================================================================== *)
(** ** [class Node] *)
(* ===================================================================== *)

Module Node.

(** The data members: [molecule] (a pointer), [component], [label], [index]. *)
Record t : Type := mk {
  molecule : Z;
  component : Z;
  label : string;
  index : Z
}.

(** The constructor [Node(Molecule * mol, int comp)]: [molecule(mol)],
    [component(comp)], [label(mol->getLabel(comp))], [index(-1)].
    [Molecule::getLabel] is only declared and enters as [getLabel]. *)
Definition new (getLabel : Z → Z → string) (mol : Z) (comp : Z) : t :=
  mk mol comp (getLabel mol comp) (-1).

(** [void setIndex(int val) { index = val; }] *)
Definition setIndex (n : t) (val : Z) : t := mk (molecule n) (component n) (label n) val.

(** [int getIndex() const { return index; }] *)
Definition getIndex (n : t) : Z := index n.

(** [std::string getLabel() const { return label; }] *)
Definition getLabel (n : t) : string := label n.

(** [bool isMolecule() const { return component == IS_MOLECULE; }]; the
    value of the static constant [IS_MOLECULE] is not in the header. *)
Definition isMolecule (IS_MOLECULE : Z) (n : t) : bool := component n =? IS_MOLECULE.

(** [static bool less_by_label(Node * node1, Node * node2)
      { return node1->label < node2->label; }]: the order of [std::string],
    character by character as unsigned values, a proper prefix first. *)
Definition less_by_label (node1 node2 : t) : bool := String.ltb (label node1) (label node2).

(** [static bool less_by_index(Node * node1, Node * node2)
      { return node1->index < node2->index; }] *)
Definition less_by_index (node1 node2 : t) : bool := index node1 <? index node2.

End Node.

(* ===================================================================== *)
(** ** [class Molecule]: the other inline members *)
(* ===================================================================== *)

(** [int isObs(int oIndex) const { return isObservable[oIndex]; }] *)
Definition isObs (m : Molecule) (oIndex : Z) : option Z := array_read (isObservable m) oIndex.

(** [void setIsObs(int oIndex, int isObs) { isObservable[oIndex]=isObs; }] *)
Definition setIsObs (m : Molecule) (oIndex : Z) (isObs : Z) : option Molecule :=
  obs ← array_write (isObservable m) oIndex isObs;
  Some (mkMolecule (isAliveInSim m) (ID_complex m) (ID_unique m) (population_type m)
                   (population_count m) (component m) (bond m) (indexOfBond m)
                   obs (rxnListMappingId2 m)).

(** [void setComplexID(int currentComplex) { this->ID_complex=currentComplex; }] *)
Definition setComplexID (m : Molecule) (currentComplex : Z) : Molecule :=
  with_ID_complex m currentComplex.

(** [void moveToNewComplex(int newComplexID) { ID_complex = newComplexID; }] *)
Definition moveToNewComplex (m : Molecule) (newComplexID : Z) : Molecule :=
  with_ID_complex m newComplexID.

(** [bool isAlive() const { return isAliveInSim; }] *)
Definition isAlive (m : Molecule) : bool := isAliveInSim m.

(** [void setAlive(bool isAlive) { isAliveInSim = isAlive; }] *)
Definition setAlive (m : Molecule) (alive : bool) : Molecule :=
  mkMolecule alive (ID_complex m) (ID_unique m) (population_type m)
             (population_count m) (component m) (bond m) (indexOfBond m)
             (isObservable m) (rxnListMappingId2 m).

(** Successive calls of [setRxnListMappingId] for one rule: the molecule
    afterwards and the returned flags, in call order. *)
Fixpoint setRxnListMappingId_all (m : Molecule) (rxnIndex : nat) (ids : list Z)
  : option (Molecule * list bool) :=
  match ids with
  | [] => Some (m, [])
  | id :: ids' =>
      r ← setRxnListMappingId m rxnIndex id;
      rest ← setRxnListMappingId_all r.1 rxnIndex ids';
      Some (rest.1, r.2 :: rest.2)
  end.

(** The rule a call addresses. *)
Definition op_rule (op : MappingOp) : nat :=
  match op with
  | OpSet r _ => r
  | OpDelete r _ => r
  end.

(** Where a call for rule [r] leaves the molecule: only the set of rule
    [r] differs. *)
Definition differs_at_rule (m m' : Molecule) (r : nat) (s' : StdSet.t) : Prop :=
  m' = with_rxnListMappingId2 m (<[r := s']> (rxnListMappingId2 m)).

(** The number of calls that returned [true]. *)
Definition count_true (flags : list bool) : Z :=
  Z.of_nat (length (filter (λ b : bool, b = true) flags)).
(** A connectivity matrix of a size that a vector can have. *)
Definition matrix_ok (connectedReactions : list (list bool)) : Prop :=
  StdVector.size connectedReactions ≤ 2 ^ 63 ∧
  Forall (λ row, StdVector.size row ≤ 2 ^ 63) connectedReactions.

(** The arguments of a series of calls are values of type [int]. *)
Definition int_pairs (calls : list (Z * Z)) : Prop :=
  Forall (λ c, is_int c.1 ∧ is_int c.2) calls.

(** The calls of the inline setters of [Molecule] that do not concern
    bonds, and the molecule each leaves ([None]: undefined behaviour). *)
Inductive MoleculeSetter : Type :=
| SetComplexID (currentComplex : Z)
| MoveToNewComplex (newComplexID : Z)
| SetAlive (alive : bool)
| SetIsObs (oIndex : Z) (value : Z)
| SetRxnListMappingId (rxnIndex : nat) (id : Z)
| DeleteRxnListMappingId (rxnIndex : nat) (id : Z).

Definition callSetter (c : MoleculeSetter) (M : Molecule) : option Molecule :=
  match c with
  | SetComplexID cid => Some (setComplexID M cid)
  | MoveToNewComplex cid => Some (moveToNewComplex M cid)
  | SetAlive b => Some (setAlive M b)
  | SetIsObs o v => setIsObs M o v
  | SetRxnListMappingId r id => fst <$> setRxnListMappingId M r id
  | DeleteRxnListMappingId r id => deleteRxnListMappingId M r id
  end.

(* ===================================================================== *)
(** * Properties *)
(* ===================================================================== *)

(** ** The ordered set *)

Lemma StdSet_insert_elem (x : Z) (s : StdSet.t) (y : Z) :
  y ∈ fst (StdSet.insert_value x s) ↔ y = x ∨ y ∈ s.
Proof.
  induction s as [|a s IH]; simpl.
  - rewrite list_elem_of_singleton. split; [by left|].
    by intros [?|?%elem_of_nil].
  - destruct (x <? a) eqn:Hlt; simpl.
    + apply elem_of_cons.
    + destruct (x =? a) eqn:Heq; simpl.
      * apply Z.eqb_eq in Heq. subst. split; [by right|].
        intros [->|?]; [apply elem_of_cons; by left|done].
      * rewrite !elem_of_cons, IH. tauto.
Qed.

Lemma StdSet_insert_wf (x : Z) (s : StdSet.t) :
  StdSet.wf s → StdSet.wf (fst (StdSet.insert_value x s)).
Proof.
  unfold StdSet.wf. induction s as [|a s IH]; simpl; intros Hs.
  - repeat constructor.
  - inversion Hs as [|? ? Hs' Ha]; subst.
    destruct (x <? a) eqn:Hlt; simpl.
    + apply Z.ltb_lt in Hlt. constructor; [done|].
      constructor; [done|].
      rewrite Forall_forall in Ha |- *. intros z Hz. specialize (Ha z Hz). lia.
    + destruct (x =? a) eqn:Heq; simpl; [done|].
      apply Z.ltb_ge in Hlt. apply Z.eqb_neq in Heq.
      constructor; [by apply IH|].
      rewrite Forall_forall in Ha |- *. intros z Hz.
      apply StdSet_insert_elem in Hz as [->|Hz]; [lia|]. by apply Ha.
Qed.

Lemma StdSet_insert_flag (x : Z) (s : StdSet.t) :
  StdSet.wf s → (snd (StdSet.insert_value x s) = true ↔ x ∉ s).
Proof.
  unfold StdSet.wf. induction s as [|a s IH]; simpl; intros Hs.
  - split; [intros _; apply not_elem_of_nil|done].
  - inversion Hs as [|? ? Hs' Ha]; subst.
    rewrite Forall_forall in Ha.
    destruct (x <? a) eqn:Hlt; simpl.
    + apply Z.ltb_lt in Hlt. split; [|done]. intros _ Hin.
      apply elem_of_cons in Hin as [->|Hin]; [lia|].
      apply Ha in Hin. lia.
    + destruct (x =? a) eqn:Heq; simpl.
      * apply Z.eqb_eq in Heq. subst. split; [done|]. intros Hn. exfalso.
        apply Hn, elem_of_cons. by left.
      * apply Z.eqb_neq in Heq. rewrite (IH Hs'), not_elem_of_cons. tauto.
Qed.

Lemma StdSet_insert_present (x : Z) (s : StdSet.t) :
  StdSet.wf s → x ∈ s → StdSet.insert_value x s = (s, false).
Proof.
  unfold StdSet.wf. induction s as [|a s IH]; simpl; intros Hs Hin.
  - by apply elem_of_nil in Hin.
  - inversion Hs as [|? ? Hs' Ha]; subst.
    rewrite Forall_forall in Ha.
    destruct (x <? a) eqn:Hlt.
    + apply Z.ltb_lt in Hlt. apply elem_of_cons in Hin as [->|Hin]; [lia|].
      apply Ha in Hin. lia.
    + destruct (x =? a) eqn:Heq; [done|].
      apply Z.eqb_neq in Heq. apply elem_of_cons in Hin as [->|Hin]; [done|].
      by rewrite (IH Hs' Hin).
Qed.

Lemma StdSet_erase_elem (x : Z) (s : StdSet.t) (y : Z) :
  StdSet.wf s → (y ∈ StdSet.erase x s ↔ y ≠ x ∧ y ∈ s).
Proof.
  unfold StdSet.wf. induction s as [|a s IH]; simpl; intros Hs.
  - split; [by intros ?%elem_of_nil|by intros [_ ?%elem_of_nil]].
  - inversion Hs as [|? ? Hs' Ha]; subst.
    rewrite Forall_forall in Ha.
    destruct (x <? a) eqn:Hlt.
    + apply Z.ltb_lt in Hlt. split; [|by intros [_ ?]].
      intros Hy. split; [|done].
      apply elem_of_cons in Hy as [->|Hy]; [lia|]. specialize (Ha _ Hy). lia.
    + destruct (x =? a) eqn:Heq.
      * apply Z.eqb_eq in Heq. subst. split.
        -- intros Hy. specialize (Ha _ Hy). split; [lia|]. apply elem_of_cons. by right.
        -- intros [Hne Hy]. apply elem_of_cons in Hy as [->|Hy]; done.
      * apply Z.eqb_neq in Heq. rewrite !elem_of_cons, (IH Hs'). split.
        -- intros [->|[? ?]]; [split; [congruence|by left]|split; [done|by right]].
        -- intros [? [->|?]]; [by left|by right].
Qed.

Lemma StdSet_erase_wf (x : Z) (s : StdSet.t) :
  StdSet.wf s → StdSet.wf (StdSet.erase x s).
Proof.
  unfold StdSet.wf. induction s as [|a s IH]; simpl; intros Hs; [done|].
  inversion Hs as [|? ? Hs' Ha]; subst.
  destruct (x <? a); [done|]. destruct (x =? a); [done|].
  constructor; [by apply IH|].
  rewrite Forall_forall in Ha |- *. intros z Hz.
  apply StdSet_erase_elem in Hz as [_ Hz]; [|done]. by apply Ha.
Qed.

Lemma StdSet_begin_least (s : StdSet.t) (x : Z) :
  StdSet.wf s → StdSet.deref_begin s = Some x → x ∈ s ∧ ∀ y, y ∈ s → x ≤ y.
Proof.
  unfold StdSet.wf, StdSet.deref_begin. destruct s as [|a s]; simpl; [done|].
  intros Hs [= <-]. inversion Hs as [|? ? _ Ha]; subst.
  rewrite Forall_forall in Ha. split; [apply elem_of_cons; by left|].
  intros y [->|Hy]%elem_of_cons; [lia|].
  apply Ha in Hy. lia.
Qed.

(** ** Mapping-set identifiers of a molecule *)

Lemma mapping_inv_new (mt : MoleculeType.t) (uid cid : Z) :
  mapping_inv (newMolecule mt uid cid).
Proof.
  unfold mapping_inv, newMolecule; simpl. apply Forall_replicate.
  split; [constructor|apply not_elem_of_nil].
Qed.

Lemma mapping_inv_insert (m : Molecule) (r : nat) (s : StdSet.t) :
  mapping_inv m → StdSet.wf s ∧ -1 ∉ s →
  mapping_inv (with_rxnListMappingId2 m (<[r := s]> (rxnListMappingId2 m))).
Proof. unfold mapping_inv; simpl. intros Hm Hs. by apply Forall_insert. Qed.

Lemma mapping_inv_run_op (op : MappingOp) (m m' : Molecule) :
  mapping_inv m → run_op op m = Some m' → mapping_inv m'.
Proof.
  intros Hm. destruct op as [r id|r id]; simpl.
  - unfold setRxnListMappingId. destruct (rxnListMappingId2 m !! r) as [s|] eqn:Hs; [|done].
    simpl. assert (Hinv : StdSet.wf s ∧ -1 ∉ s).
    { unfold mapping_inv in Hm. rewrite Forall_forall in Hm.
      apply Hm. by eapply list_elem_of_lookup_2. }
    destruct (id =? -1) eqn:Hid; simpl; intros [= <-].
    + apply mapping_inv_insert; [done|]. split; [constructor|apply not_elem_of_nil].
    + apply Z.eqb_neq in Hid. apply mapping_inv_insert; [done|]. split.
      * apply StdSet_insert_wf, Hinv.
      * rewrite StdSet_insert_elem. intros [?|?]; [lia|]. by destruct Hinv.
  - unfold deleteRxnListMappingId. destruct (rxnListMappingId2 m !! r) as [s|] eqn:Hs; [|done].
    simpl. intros [= <-].
    assert (Hinv : StdSet.wf s ∧ -1 ∉ s).
    { unfold mapping_inv in Hm. rewrite Forall_forall in Hm.
      apply Hm. by eapply list_elem_of_lookup_2. }
    apply mapping_inv_insert; [done|]. split.
    + apply StdSet_erase_wf, Hinv.
    + rewrite StdSet_erase_elem by apply Hinv. intros [_ ?]. by destruct Hinv.
Qed.

Lemma mapping_inv_run_ops (ops : list MappingOp) (m m' : Molecule) :
  mapping_inv m → run_ops ops m = Some m' → mapping_inv m'.
Proof.
  revert m. induction ops as [|op ops IH]; simpl; intros m Hm.
  - by intros [= <-].
  - destruct (run_op op m) as [m1|] eqn:Hop; [|done]. simpl.
    apply IH. by eapply mapping_inv_run_op.
Qed.

(** C6.  The participation of a molecule in rule [r] is a set of
    mapping-set identifiers.  [setRxnListMappingId(r, id)] with [id >= 0]
    inserts [id]: afterwards the set holds [id] and what it held before, the
    returned flag is [true] exactly when [id] was not yet present, and a
    duplicate insertion leaves the set as it was and returns [false].  With
    [id == -1] the call empties the set and returns [true].  The sets of the
    other rules are not touched. *)
Theorem setRxnListMappingId_set_semantics
    (m : Molecule) (r : nat) (s : StdSet.t) (id : Z) :
  getRxnListMappingSet m r = Some s →
  StdSet.wf s →
  (0 ≤ id →
     ∃ m' b s',
       setRxnListMappingId m r id = Some (m', b) ∧
       getRxnListMappingSet m' r = Some s' ∧
       StdSet.wf s' ∧
       (∀ x, x ∈ s' ↔ x = id ∨ x ∈ s) ∧
       (b = true ↔ id ∉ s) ∧
       (id ∈ s → s' = s ∧ b = false) ∧
       (∀ r', r' ≠ r → getRxnListMappingSet m' r' = getRxnListMappingSet m r')) ∧
  (∃ m',
       setRxnListMappingId m r (-1) = Some (m', true) ∧
       getRxnListMappingSet m' r = Some StdSet.empty ∧
       (∀ r', r' ≠ r → getRxnListMappingSet m' r' = getRxnListMappingSet m r')).
Proof.
  unfold getRxnListMappingSet. intros Hs Hwf.
  assert (Hr : (r < length (rxnListMappingId2 m))%nat) by (by eapply lookup_lt_Some).
  split.
  - intros Hid. unfold setRxnListMappingId. rewrite Hs; simpl.
    destruct (id =? -1) eqn:Hneg; [apply Z.eqb_eq in Hneg; lia|].
    eexists _, _, _. split; [reflexivity|]. simpl.
    split; [by apply list_lookup_insert_eq|].
    split; [by apply StdSet_insert_wf|].
    split; [apply StdSet_insert_elem|].
    split; [by apply StdSet_insert_flag|].
    split.
    + intros Hin. by rewrite (StdSet_insert_present id s Hwf Hin).
    + intros r' Hne. by apply list_lookup_insert_ne.
  - unfold setRxnListMappingId. rewrite Hs; simpl.
    eexists. split; [reflexivity|]. simpl. split.
    + by apply list_lookup_insert_eq.
    + intros r' Hne. by apply list_lookup_insert_ne.
Qed.

Lemma setRxnListMappingId_set_semantics_witness :
  let m := with_rxnListMappingId2
             (newMolecule (MoleculeType.mk 1 [0] false 2) 7 0) [[3; 5]; []] in
  getRxnListMappingSet m 0 = Some [3; 5] ∧
  StdSet.wf [3; 5] ∧
  setRxnListMappingId m 0 4 = Some (with_rxnListMappingId2 m [[3; 4; 5]; []], true) ∧
  setRxnListMappingId m 0 5 = Some (m, false) ∧
  ∃ m', setRxnListMappingId m 0 (-1) = Some (m', true) ∧
        getRxnListMappingSet m' 0 = Some StdSet.empty.
Proof.
  intros m.
  assert (Hs : getRxnListMappingSet m 0 = Some [3; 5]) by reflexivity.
  assert (Hwf : StdSet.wf [3; 5]) by (repeat (constructor; try lia)).
  split; [exact Hs|]. split; [exact Hwf|].
  split; [reflexivity|]. split; [reflexivity|].
  destruct (setRxnListMappingId_set_semantics m 0 [3; 5] 4 Hs Hwf) as [_ (m' & H1 & H2 & _)].
  exists m'. split; [exact H1|exact H2].
Defined.

(** C9.  For a molecule whose mapping-id sets were produced, starting from
    the empty sets of a new molecule, by the calls that change them,
    [getRxnListMappingId(r)] returns [NOT_IN_RXN] (-1) if and only if the
    set for rule [r] is empty; otherwise it returns the first element of the
    ordered set, which is its smallest identifier. *)
Theorem getRxnListMappingId_first_or_NOT_IN_RXN
    (mt : MoleculeType.t) (uid cid : Z) (ops : list MappingOp)
    (m : Molecule) (r : nat) (s : StdSet.t) :
  run_ops ops (newMolecule mt uid cid) = Some m →
  getRxnListMappingSet m r = Some s →
  (getRxnListMappingId m r = Some NOT_IN_RXN ↔ s = StdSet.empty) ∧
  (s ≠ StdSet.empty →
     ∃ x, getRxnListMappingId m r = Some x ∧ x ∈ s ∧ ∀ y, y ∈ s → x ≤ y).
Proof.
  intros Hrun Hs.
  assert (Hinv : StdSet.wf s ∧ -1 ∉ s).
  { pose proof (mapping_inv_run_ops _ _ _ (mapping_inv_new _ _ _) Hrun) as Hm.
    unfold mapping_inv in Hm. rewrite Forall_forall in Hm.
    apply Hm. by eapply list_elem_of_lookup_2. }
  destruct Hinv as [Hwf Hneg].
  unfold getRxnListMappingSet in Hs. unfold getRxnListMappingId. rewrite Hs; simpl.
  destruct s as [|a s']; simpl.
  - split; [done|]. by intros [].
  - unfold StdSet.size, StdSet.deref_begin; simpl.
    destruct (0 <? Z.pos (Pos.of_succ_nat (length s'))) eqn:Hpos;
      [|apply Z.ltb_ge in Hpos; lia].
    split.
    + split; [|done]. intros [= ->]. exfalso. apply Hneg. by left.
    + intros _. exists a. split; [done|].
      destruct (StdSet_begin_least (a :: s') a Hwf eq_refl) as [Ha Hmin]. by split.
Qed.

Lemma getRxnListMappingId_first_or_NOT_IN_RXN_witness :
  let ops := [OpSet 0 9; OpSet 0 4; OpSet 1 6; OpSet 1 (-1); OpSet 0 9; OpDelete 0 7] in
  ∃ m, run_ops ops (newMolecule (MoleculeType.mk 1 [0] false 2) 7 0) = Some m ∧
       getRxnListMappingSet m 0 = Some [4; 9] ∧
       getRxnListMappingId m 0 = Some 4 ∧
       (getRxnListMappingId m 0 = Some NOT_IN_RXN ↔ [4; 9] = StdSet.empty).
Proof.
  intros ops.
  destruct (run_ops ops (newMolecule (MoleculeType.mk 1 [0] false 2) 7 0))
    as [m|] eqn:Hrun; [|discriminate Hrun].
  exists m. split; [reflexivity|].
  assert (Hs : getRxnListMappingSet m 0 = Some [4; 9])
    by (injection Hrun as <-; reflexivity).
  split; [exact Hs|].
  split; [injection Hrun as <-; reflexivity|].
  exact (proj1 (getRxnListMappingId_first_or_NOT_IN_RXN
                  (MoleculeType.mk 1 [0] false 2) 7 0 ops m 0 [4; 9] Hrun Hs)).
Defined.

(** ** The public iterator of [ComplexList] *)

Lemma nextComplex_calls_at_end (k : nat) (cl : ComplexList) :
  (length (allComplexes cl) ≤ complexIter_public cl)%nat →
  nextComplex_calls k cl = (replicate k 0, cl).
Proof.
  intros Hend. induction k as [|k IH]; simpl; [done|].
  unfold nextComplex.
  destruct (complexIter_public cl <? length (allComplexes cl))%nat eqn:Hlt.
  - apply Nat.ltb_lt in Hlt. lia.
  - simpl. by rewrite IH.
Qed.

Lemma nextComplex_calls_from (n k : nat) (cl : ComplexList) :
  (complexIter_public cl + n = length (allComplexes cl))%nat →
  nextComplex_calls (n + k) cl =
    (drop (complexIter_public cl) (allComplexes cl) ++ replicate k 0,
     mkComplexList (allComplexes cl) (useComplex cl) (length (allComplexes cl))).
Proof.
  revert cl. induction n as [|n IH]; intros cl Hn.
  - simpl. rewrite nextComplex_calls_at_end by lia.
    rewrite drop_ge by lia. simpl. f_equal.
    destruct cl as [l u i]; simpl in *. f_equal. lia.
  - assert (Hlt : (complexIter_public cl < length (allComplexes cl))%nat) by lia.
    destruct (lookup_lt_is_Some_2 _ _ Hlt) as [c Hc].
    change (S n + k)%nat with (S (n + k)). cbn [nextComplex_calls].
    unfold nextComplex. rewrite (proj2 (Nat.ltb_lt _ _) Hlt), Hc.
    cbn [fst snd].
    rewrite (IH (mkComplexList (allComplexes cl) (useComplex cl) (S (complexIter_public cl))))
      by (simpl; lia).
    simpl. by rewrite (drop_S _ _ _ Hc).
Qed.

(** C10.  After [resetComplexIter()], the first [size] calls of
    [nextComplex()] return the stored complex pointers, each once and in
    storage order; every further call returns the null pointer [0], and the
    iterator stays at the end of the container. *)
Theorem nextComplex_enumerates_then_null (cl : ComplexList) (k : nat) :
  nextComplex_calls (length (allComplexes cl) + k) (resetComplexIter cl) =
    (allComplexes cl ++ replicate k 0,
     mkComplexList (allComplexes cl) (useComplex cl) (length (allComplexes cl))).
Proof.
  by rewrite (nextComplex_calls_from (length (allComplexes cl)) k (resetComplexIter cl)).
Qed.

(** ** Exit codes *)

(** C7, as the claim states it, fails: asking a reaction that is not a DOR
    reaction for its DOR reactant position is reported as an internal error
    and leaves with code 1, not with the code 2 the specification assigns
    to internal errors. *)
Lemma getDORreactantPosition_exit_code_not_2 :
  Proc.exit_code ReactionClass_getDORreactantPosition
    ≠ Some (spec_exit_code InternalInvariant).
Proof. vm_compute. discriminate. Qed.

(** C7, amended.  The fatal exits written in the header all use exit code
    1, whatever the kind of error: [System::getLocalFunction] (not
    implemented), and [ReactionClass::getDORreactantPosition] and
    [getDORreactantPosition2] on a reaction that is not of that type, which
    announce an internal error on [cerr] before leaving.  None of them
    returns a value. *)
Theorem header_fatal_exits_use_code_1 (funcName : string) :
  Proc.exit_code (System_getLocalFunction funcName) = Some 1 ∧
  Proc.exit_code ReactionClass_getDORreactantPosition = Some 1 ∧
  Proc.exit_code ReactionClass_getDORreactantPosition2 = Some 1 ∧
  (Proc.Cerr, "this is an internal error, and so I will quit."%string)
    ∈ Proc.written ReactionClass_getDORreactantPosition ∧
  (Proc.Cerr, "this is an internal error, and so I will quit."%string)
    ∈ Proc.written ReactionClass_getDORreactantPosition2.
Proof.
  repeat split; try reflexivity.
  - unfold ReactionClass_getDORreactantPosition; simpl. apply elem_of_cons. right. by left.
  - unfold ReactionClass_getDORreactantPosition2; simpl. apply elem_of_cons. right. by left.
Qed.

(** ** The molecule graph: half-edges under the mutation primitives *)

Lemma Res_bind_Ok {A B} (c : Res A) (k : A → Res B) (b : B) :
  c ≫= k = Ok b → ∃ a, c = Ok a ∧ k a = Ok b.
Proof. destruct c as [a| |]; simpl; [eauto|done|done]. Qed.

Lemma of_option_Ok {A} (o : option A) (a : A) : of_option o = Ok a → o = Some a.
Proof. destruct o; simpl; congruence. Qed.

Ltac res_inv H :=
  let a := fresh "a" in
  let Ha := fresh "Ha" in
  apply Res_bind_Ok in H as (a & Ha & H);
  try apply of_option_Ok in Ha.

Lemma isBindingSiteOpen_site (g : MolStore) (m : MolPtr) (M : Molecule) (i : nat) (o : bool) :
  g !! m = Some M → isBindingSiteOpen M i = Some o →
  site_exists g m i ∧ (o = true → bondAt g m i = None).
Proof.
  intros Hm. unfold isBindingSiteOpen, bondAt. rewrite Hm; simpl.
  destruct (bond M !! i) as [b|] eqn:Hb; [|done]. simpl.
  destruct (indexOfBond M !! i) as [ix|] eqn:Hix; [|done]. simpl.
  intros [= <-]. split.
  - exists M. split; [done|]. split; by eapply lookup_lt_Some.
  - intros Ho. apply bool_decide_eq_true in Ho. by subst.
Qed.

Lemma site_exists_set_site (g : MolStore) (m : MolPtr) (i : nat) (b : option MolPtr) (ix : Z)
    (m' : MolPtr) (i' : nat) :
  site_exists g m' i' → site_exists (set_site g m i b ix) m' i'.
Proof.
  intros (M' & Hm' & Hb & Hi). unfold set_site.
  destruct (g !! m) as [M|] eqn:Hm; [|by exists M'].
  destruct (decide (m' = m)) as [->|Hne].
  - rewrite Hm in Hm'. injection Hm' as ->. eexists. rewrite lookup_insert_eq.
    split; [done|]. simpl. by rewrite !length_insert.
  - exists M'. by rewrite lookup_insert_ne.
Qed.

Lemma bondAt_set_site_eq (g : MolStore) (m : MolPtr) (i : nat) (b : option MolPtr) (ix : Z) :
  site_exists g m i →
  bondAt (set_site g m i b ix) m i = (n ← b; Some (n, ix)).
Proof.
  intros (M & Hm & Hb & Hi). unfold set_site, bondAt. rewrite Hm, lookup_insert_eq. simpl.
  rewrite !list_lookup_insert_eq by done. by destruct b.
Qed.

Lemma bondAt_set_site_clear (g : MolStore) (m : MolPtr) (i : nat) (ix : Z) :
  bondAt (set_site g m i None ix) m i = None.
Proof.
  unfold set_site. destruct (g !! m) as [M|] eqn:Hm.
  - unfold bondAt. rewrite lookup_insert_eq. simpl.
    destruct (decide (i < length (bond M))%nat) as [Hlt|Hge].
    + rewrite (list_lookup_insert_eq (bond M)) by done. done.
    + rewrite (lookup_ge_None_2 (<[i:=None]> (bond M))); [done|]. rewrite length_insert. lia.
  - unfold bondAt. by rewrite Hm.
Qed.

Lemma bondAt_set_site_ne (g : MolStore) (m : MolPtr) (i : nat) (b : option MolPtr) (ix : Z)
    (m' : MolPtr) (i' : nat) :
  (m', i') ≠ (m, i) →
  bondAt (set_site g m i b ix) m' i' = bondAt g m' i'.
Proof.
  intros Hne. unfold set_site.
  destruct (g !! m) as [M|] eqn:Hm; [|done].
  unfold bondAt. destruct (decide (m' = m)) as [->|Hm'].
  - rewrite lookup_insert_eq, Hm. simpl.
    assert (i ≠ i') by congruence.
    by rewrite !list_lookup_insert_ne.
  - by rewrite lookup_insert_ne.
Qed.

Lemma bondAt_fmap (f : Molecule → Molecule) (g : MolStore) (m : MolPtr) (i : nat) :
  (∀ M, bond (f M) = bond M ∧ indexOfBond (f M) = indexOfBond M) →
  bondAt (f <$> g) m i = bondAt g m i.
Proof.
  intros Hf. unfold bondAt. rewrite lookup_fmap.
  destruct (g !! m) as [M|]; simpl; [|done].
  destruct (Hf M) as [-> ->]. done.
Qed.

Lemma bondAt_refactorToNewComplex (g : MolStore) (c c' : Z) (m : MolPtr) (i : nat) :
  bondAt (refactorToNewComplex g c c') m i = bondAt g m i.
Proof.
  apply bondAt_fmap. intros M. by destruct (bool_decide (ID_complex M = c)).
Qed.

Lemma bondAt_mergeComplexes (g : MolStore) (c1 c2 : Z) (m : MolPtr) (i : nat) :
  bondAt (mergeComplexes g c1 c2) m i = bondAt g m i.
Proof.
  unfold mergeComplexes. destruct (bool_decide (c1 = c2)); [done|].
  destruct (_ <? _)%nat; apply bondAt_refactorToNewComplex.
Qed.

Lemma bondAt_splitComplex (g : MolStore) (m1 m2 : MolPtr) (m : MolPtr) (i : nat) :
  bondAt (splitComplex g m1 m2) m i = bondAt g m i.
Proof.
  unfold splitComplex. destruct (bool_decide (m2 ∈ _)); [done|].
  unfold bondAt. rewrite map_lookup_imap.
  destruct (g !! m) as [M|]; simpl; [|done].
  by destruct (bool_decide (m ∈ _)).
Qed.

(** What [bind] does to the half-edges. *)
Lemma bind_bondAt (g g' : MolStore) (m1 : MolPtr) (c1 : nat) (m2 : MolPtr) (c2 : nat) :
  bind g m1 c1 m2 c2 = Ok g' →
  bondAt g m1 c1 = None ∧ bondAt g m2 c2 = None ∧
  bondAt g' m2 c2 = Some (m1, Z.of_nat c1) ∧
  ((m1, c1) ≠ (m2, c2) → bondAt g' m1 c1 = Some (m2, Z.of_nat c2)) ∧
  (∀ m i, (m, i) ≠ (m1, c1) → (m, i) ≠ (m2, c2) → bondAt g' m i = bondAt g m i).
Proof.
  unfold bind. intros H.
  res_inv H. rename a into M1, Ha into HM1.
  res_inv H. rename a into M2, Ha into HM2.
  res_inv H. rename a into o1, Ha into Ho1.
  res_inv H. rename a into o2, Ha into Ho2.
  destruct o1, o2; simpl in H; try done. injection H as <-.
  destruct (isBindingSiteOpen_site g m1 M1 c1 true HM1 Ho1) as [Hs1 Hn1].
  destruct (isBindingSiteOpen_site g m2 M2 c2 true HM2 Ho2) as [Hs2 Hn2].
  split; [by apply Hn1|]. split; [by apply Hn2|].
  split; [|split].
  - rewrite bondAt_mergeComplexes, bondAt_set_site_eq; [done|].
    by apply site_exists_set_site.
  - intros Hne. rewrite bondAt_mergeComplexes, bondAt_set_site_ne by done.
    by rewrite bondAt_set_site_eq.
  - intros m i Hne1 Hne2.
    by rewrite bondAt_mergeComplexes, !bondAt_set_site_ne.
Qed.

Lemma bind_bond_symmetric (g g' : MolStore) (m1 : MolPtr) (c1 : nat) (m2 : MolPtr) (c2 : nat) :
  bond_symmetric g → bind g m1 c1 m2 c2 = Ok g' → bond_symmetric g'.
Proof.
  intros Hsym Hbind.
  destruct (bind_bondAt _ _ _ _ _ _ Hbind) as (Hn1 & Hn2 & H2 & H1 & Hframe).
  intros m i n ix Hat.
  destruct (decide ((m, i) = (m2, c2))) as [[= -> ->]|Hne2].
  - rewrite H2 in Hat. injection Hat as <- <-. split; [lia|]. rewrite Nat2Z.id.
    destruct (decide ((m1, c1) = (m2, c2))) as [[= -> ->]|Hne]; [done|by apply H1].
  - destruct (decide ((m, i) = (m1, c1))) as [[= -> ->]|Hne1].
    + rewrite H1 in Hat by done. injection Hat as <- <-. split; [lia|].
      by rewrite Nat2Z.id.
    + rewrite Hframe in Hat by done.
      destruct (Hsym _ _ _ _ Hat) as [Hix Hback]. split; [done|].
      rewrite Hframe; [done| |]; intros [= -> Hc]; rewrite Hc in Hback; congruence.
Qed.

(** What [unbind] does to the half-edges. *)
Lemma unbind_bondAt (g g' : MolStore) (m1 : MolPtr) (s : nat) (log : list Z) :
  unbind g m1 s = Ok (g', log) →
  ∃ m2 ix, bondAt g m1 s = Some (m2, ix) ∧ 0 ≤ ix ∧
    bondAt g' m1 s = None ∧ bondAt g' m2 (Z.to_nat ix) = None ∧
    (∀ m i, (m, i) ≠ (m1, s) → (m, i) ≠ (m2, Z.to_nat ix) → bondAt g' m i = bondAt g m i).
Proof.
  unfold unbind. intros H.
  res_inv H. rename a into M1, Ha into HM1.
  res_inv H. rename a into b, Ha into Hb.
  res_inv H. rename a into ix, Ha into Hix.
  destruct b as [m2|]; [|done].
  res_inv H. rename a into M2, Ha into HM2.
  destruct (0 <=? ix) eqn:Hpos; [|done]. apply Z.leb_le in Hpos.
  injection H as <- <-.
  exists m2, ix.
  split; [unfold bondAt; by rewrite HM1; simpl; rewrite Hb; simpl; rewrite Hix|].
  split; [done|].
  assert (Hs1 : site_exists g m1 s).
  { exists M1. split; [done|]. split; by eapply lookup_lt_Some. }
  split; [|split].
  - rewrite bondAt_splitComplex.
    destruct (decide ((m1, s) = (m2, Z.to_nat ix))) as [[= <- <-]|Hne].
    + rewrite bondAt_set_site_eq; [done|]. by apply site_exists_set_site.
    + rewrite bondAt_set_site_ne by done. by rewrite bondAt_set_site_eq.
  - by rewrite bondAt_splitComplex, bondAt_set_site_clear.
  - intros m i Hne1 Hne2.
    by rewrite bondAt_splitComplex, !bondAt_set_site_ne.
Qed.

Lemma unbind_bond_symmetric (g g' : MolStore) (m1 : MolPtr) (s : nat) (log : list Z) :
  bond_symmetric g → unbind g m1 s = Ok (g', log) → bond_symmetric g'.
Proof.
  intros Hsym Hunbind.
  destruct (unbind_bondAt _ _ _ _ _ Hunbind) as (m2 & ix & Hat1 & Hix & Hc1 & Hc2 & Hframe).
  destruct (Hsym _ _ _ _ Hat1) as [_ Hat2].
  intros m i n jx Hat.
  assert (Hne1 : (m, i) ≠ (m1, s)) by (intros [= -> ->]; congruence).
  assert (Hne2 : (m, i) ≠ (m2, Z.to_nat ix)) by (intros [= -> ->]; congruence).
  rewrite Hframe in Hat by done.
  destruct (Hsym _ _ _ _ Hat) as [Hjx Hback]. split; [done|].
  rewrite Hframe; [done| |].
  - intros [= -> Hj]. rewrite Hj, Hat1 in Hback. injection Hback as -> ->.
    by rewrite Nat2Z.id in Hne2.
  - intros [= -> Hj]. rewrite Hj, Hat2 in Hback. injection Hback as -> Hi.
    apply Nat2Z.inj in Hi. by subst.
Qed.

Lemma bondAt_insert_same_bonds (g : MolStore) (m : MolPtr) (M M' : Molecule)
    (m' : MolPtr) (i : nat) :
  g !! m = Some M → bond M' = bond M → indexOfBond M' = indexOfBond M →
  bondAt (<[m := M']> g) m' i = bondAt g m' i.
Proof.
  intros Hm Hb Hi. unfold bondAt. destruct (decide (m' = m)) as [->|Hne].
  - rewrite lookup_insert_eq, Hm. simpl. by rewrite Hb, Hi.
  - by rewrite lookup_insert_ne.
Qed.

Lemma setComponentState_bondAt (g g' : MolStore) (m : MolPtr) (c : nat) (v : Z)
    (m' : MolPtr) (i : nat) :
  setComponentState g m c v = Ok g' → bondAt g' m' i = bondAt g m' i.
Proof.
  unfold setComponentState. intros H.
  res_inv H. res_inv H. injection H as <-.
  by eapply bondAt_insert_same_bonds.
Qed.

(** ** Bond symmetry under the transformations *)

Lemma bond_symmetric_frame (g g' : MolStore) :
  (∀ m i, bondAt g' m i = bondAt g m i) → bond_symmetric g → bond_symmetric g'.
Proof.
  intros Hframe Hsym m i n ix. rewrite !Hframe. apply Hsym.
Qed.

Lemma bondAt_newMolecule (g : MolStore) (p : MolPtr) (mt : MoleculeType.t) (uid cid : Z)
    (i : nat) :
  bondAt (<[p := newMolecule mt uid cid]> g) p i = None.
Proof.
  unfold bondAt. rewrite lookup_insert_eq. simpl.
  destruct (replicate (MoleculeType.numOfComponents mt) None !! i) as [b|] eqn:Hb; [|done].
  apply lookup_replicate in Hb as [-> _]. done.
Qed.

Lemma addMolecule_bond_symmetric (g : MolStore) (mt : MoleculeType.t) (uid cid : Z) :
  bond_symmetric g →
  bond_symmetric (<[fresh (dom g) := newMolecule mt uid cid]> g).
Proof.
  intros Hsym. set (p := fresh (dom g)).
  assert (Hp : g !! p = None) by (apply not_elem_of_dom, is_fresh).
  assert (Hother : ∀ m i, m ≠ p →
            bondAt (<[p := newMolecule mt uid cid]> g) m i = bondAt g m i).
  { intros m i Hne. unfold bondAt. by rewrite lookup_insert_ne. }
  intros m i n ix Hat.
  destruct (decide (m = p)) as [->|Hm]; [by rewrite bondAt_newMolecule in Hat|].
  rewrite Hother in Hat by done.
  destruct (Hsym _ _ _ _ Hat) as [Hix Hback]. split; [done|].
  rewrite Hother; [done|]. intros ->.
  unfold bondAt in Hback. by rewrite Hp in Hback.
Qed.

Lemma applyTransformation_bond_symmetric (forbid : bool) (ms : MappingSet)
    (tr : Transformation) (e e' : Edit) :
  bond_symmetric (graph e) → applyTransformation forbid ms tr e = Ok e' →
  bond_symmetric (graph e').
Proof.
  intros Hsym. destruct tr as [t c v|t1 i t2 j|t i|mt|t|t|t]; simpl; intros H.
  - res_inv H. res_inv H. injection H as <-. simpl.
    eapply bond_symmetric_frame; [|done].
    intros m i. by eapply setComponentState_bondAt.
  - res_inv H. res_inv H. res_inv H. res_inv H.
    destruct (forbid && _); [done|].
    res_inv H. injection H as <-. simpl.
    by eapply bind_bond_symmetric.
  - res_inv H. res_inv H. injection H as <-. simpl.
    destruct a0 as [g' log]. by eapply unbind_bond_symmetric.
  - injection H as <-. simpl. by apply addMolecule_bond_symmetric.
  - res_inv H. res_inv H. destruct (forallb _ _); [|done].
    injection H as <-. simpl.
    eapply bond_symmetric_frame; [|done].
    intros m i. by eapply bondAt_insert_same_bonds.
  - res_inv H. res_inv H. destruct (incrementPopulation _).2 eqn:Hinc; [|done].
    injection H as <-. simpl.
    eapply bond_symmetric_frame; [|done].
    intros m i. eapply bondAt_insert_same_bonds; [done| |];
      unfold incrementPopulation; by destruct (population_type _).
  - res_inv H. res_inv H. destruct (population_type _) eqn:Hpop; [|done].
    destruct (decrementPopulation _).2 eqn:Hdec; [|done].
    injection H as <-. simpl.
    eapply bond_symmetric_frame; [|done].
    intros m i. eapply bondAt_insert_same_bonds; [done| |];
      unfold decrementPopulation; by destruct (_ && _).
Qed.

Lemma applyTransformations_bond_symmetric (forbid : bool) (ms : MappingSet)
    (trs : list Transformation) (e e' : Edit) :
  bond_symmetric (graph e) → applyTransformations forbid ms trs e = Ok e' →
  bond_symmetric (graph e').
Proof.
  revert e. induction trs as [|tr trs IH]; intros e Hsym; simpl.
  - by intros [= <-].
  - intros H. res_inv H. eapply IH; [|done].
    by eapply applyTransformation_bond_symmetric.
Qed.

(** C2.  Bond symmetry is an invariant of the molecule graph.  It holds
    in the empty graph.  In a graph whose bonds are symmetric, a successful
    [Molecule::bind] sets both half-edges and the result is symmetric; a
    successful [Molecule::unbind] removes both half-edges and the result is
    symmetric; and the graph left by any transformation set (state changes,
    binds, unbinds, additions and deletions of molecules, population
    changes) is symmetric. *)
Theorem bond_symmetry_preserved :
  bond_symmetric ∅ ∧
  ∀ g : MolStore,
    bond_symmetric g →
    (∀ m1 c1 m2 c2 g',
       bind g m1 c1 m2 c2 = Ok g' →
       bond_symmetric g' ∧
       bondAt g' m1 c1 = Some (m2, Z.of_nat c2) ∧
       bondAt g' m2 c2 = Some (m1, Z.of_nat c1)) ∧
    (∀ m1 c1 g' log,
       unbind g m1 c1 = Ok (g', log) →
       bond_symmetric g' ∧
       ∃ m2 c2, bondAt g m1 c1 = Some (m2, c2) ∧
                bondAt g' m1 c1 = None ∧ bondAt g' m2 (Z.to_nat c2) = None) ∧
    (∀ forbid ms trs uid tch e',
       applyTransformations forbid ms trs (mkEdit uid g tch) = Ok e' →
       bond_symmetric (graph e')).
Proof.
  split.
  { intros m i n ix Hat. unfold bondAt in Hat. by rewrite lookup_empty in Hat. }
  intros g Hsym. split; [|split].
  - intros m1 c1 m2 c2 g' Hbind.
    split; [by eapply bind_bond_symmetric|].
    destruct (bind_bondAt _ _ _ _ _ _ Hbind) as (_ & _ & H2 & H1 & _).
    split; [|done].
    destruct (decide ((m1, c1) = (m2, c2))) as [Heq|Hne]; [|by apply H1].
    injection Heq as -> ->. done.
  - intros m1 c1 g' log Hunbind.
    split; [by eapply unbind_bond_symmetric|].
    destruct (unbind_bondAt _ _ _ _ _ Hunbind) as (m2 & ix & Hat & _ & Hc1 & Hc2 & _).
    by exists m2, ix.
  - intros forbid ms trs uid tch e' Happly.
    by eapply applyTransformations_bond_symmetric in Happly.
Qed.

Lemma freePair_bond_symmetric : bond_symmetric freePair.
Proof.
  intros m i n ix Hat. exfalso. unfold bondAt, freePair in Hat.
  destruct (decide (m = 0%nat)) as [->|H0].
  - rewrite lookup_insert_eq in Hat. by destruct i as [|[|i]].
  - rewrite lookup_insert_ne in Hat by done.
    destruct (decide (m = 1%nat)) as [->|H1].
    + rewrite lookup_singleton_eq in Hat. by destruct i as [|[|i]].
    + by rewrite lookup_singleton_ne in Hat.
Qed.

Lemma bond_symmetry_preserved_witness :
  bond_symmetric freePair ∧
  ∃ g1, bind freePair 0 0 1 0 = Ok g1 ∧
        bond_symmetric g1 ∧
        bondAt g1 0%nat 0%nat = Some (1%nat, 0) ∧
        bondAt g1 1%nat 0%nat = Some (0%nat, 0).
Proof.
  split; [exact freePair_bond_symmetric|].
  destruct (bind freePair 0 0 1 0) as [g1|rej|] eqn:Hbind;
    [|exfalso; vm_compute in Hbind; discriminate Hbind
     |exfalso; vm_compute in Hbind; discriminate Hbind].
  exists g1. split; [reflexivity|].
  exact (proj1 (proj2 bond_symmetry_preserved freePair freePair_bond_symmetric)
               0%nat 0%nat 1%nat 0%nat g1 Hbind).
Defined.

(** ** Where rejections come from *)

Lemma bind_rejects_occupied_site (g : MolStore) (m1 : MolPtr) (c1 : nat) (m2 : MolPtr) (c2 : nat)
    (M1 M2 : Molecule) (open1 open2 : bool) :
  g !! m1 = Some M1 → g !! m2 = Some M2 →
  isBindingSiteOpen M1 c1 = Some open1 → isBindingSiteOpen M2 c2 = Some open2 →
  open1 && open2 = false →
  bind g m1 c1 m2 c2 = Rejected SiteOccupied.
Proof.
  intros H1 H2 Ho1 Ho2 Hocc. unfold bind. rewrite H1, H2. simpl.
  rewrite Ho1, Ho2. simpl. by rewrite Hocc.
Qed.

Lemma unbind_rejects_open_site (g : MolStore) (m : MolPtr) (c : nat) (M : Molecule) :
  g !! m = Some M → isBindingSiteOpen M c = Some true →
  unbind g m c = Rejected SiteUnbound.
Proof.
  intros Hm. unfold isBindingSiteOpen, unbind. rewrite Hm. simpl.
  destruct (bond M !! c) as [b|]; [|done]. simpl.
  destruct (indexOfBond M !! c) as [ix|]; [|done]. simpl.
  intros [= Hb]. apply bool_decide_eq_true in Hb. by subst.
Qed.

Lemma decrement_rejects_empty_population (forbid : bool) (ms : MappingSet) (t : nat)
    (e : Edit) (m : MolPtr) (M : Molecule) :
  resolveMolecule ms t = Ok m → graph e !! m = Some M →
  population_type M = true → population_count M ≤ 0 →
  applyTransformation forbid ms (DecrementPopulation t) e = Rejected PopulationUnderflow.
Proof.
  intros Ht Hm Hpop Hcount. simpl. rewrite Ht. simpl. rewrite Hm. simpl.
  rewrite Hpop. unfold decrementPopulation. rewrite Hpop. simpl.
  destruct (0 <? population_count M) eqn:Hpos; [apply Z.ltb_lt in Hpos; lia|done].
Qed.

Lemma bind_within_complex_is_refused (ms : MappingSet) (t1 i t2 j : nat) (e : Edit)
    (s1 s2 : MolPtr * nat) (M1 M2 : Molecule) :
  resolveSite ms t1 i = Ok s1 → resolveSite ms t2 j = Ok s2 →
  graph e !! s1.1 = Some M1 → graph e !! s2.1 = Some M2 →
  getComplexID M1 = getComplexID M2 →
  applyTransformation true ms (AddBond t1 i t2 j) e = Rejected ComplexMergeForbidden.
Proof.
  intros H1 H2 HM1 HM2 Hsame. simpl. rewrite H1, H2. simpl. rewrite HM1, HM2. simpl.
  by rewrite bool_decide_eq_true_2.
Qed.

(** A rejection after edits that went through rejects the whole
    transformation set: the edits made so far are not kept. *)
Lemma applyTransformations_rejected_later (forbid : bool) (ms : MappingSet)
    (before : list Transformation) (tr : Transformation) (after : list Transformation)
    (e e1 : Edit) (rej : Rejection) :
  applyTransformations forbid ms before e = Ok e1 →
  applyTransformation forbid ms tr e1 = Rejected rej →
  applyTransformations forbid ms (before ++ tr :: after) e = Rejected rej.
Proof.
  revert e. induction before as [|tr0 before IH]; intros e; simpl.
  - intros [= <-] Hrej. by rewrite Hrej.
  - intros H Hrej. res_inv H. rewrite Ha. simpl. by apply IH.
Qed.

(** ** Propensities *)

(** The number of binary digits of a mantissa, and what a shift does to
    it. *)
Lemma digits2_pos_bounds (m : positive) :
  2 ^ (Z.pos (digits2_pos m) - 1) ≤ Z.pos m < 2 ^ Z.pos (digits2_pos m).
Proof.
  induction m as [m IH|m IH|]; cbn [digits2_pos].
  - rewrite Pos2Z.inj_succ.
    replace (Z.succ (Z.pos (digits2_pos m)) - 1) with (Z.succ (Z.pos (digits2_pos m) - 1)) by lia.
    rewrite !Z.pow_succ_r by lia. lia.
  - rewrite Pos2Z.inj_succ.
    replace (Z.succ (Z.pos (digits2_pos m)) - 1) with (Z.succ (Z.pos (digits2_pos m) - 1)) by lia.
    rewrite !Z.pow_succ_r by lia. lia.
  - simpl. lia.
Qed.

Lemma digits2_pos_shift (m1 m2 : positive) (k : Z) :
  0 ≤ k → Z.pos m1 = Z.pos m2 * 2 ^ k →
  Z.pos (digits2_pos m1) = Z.pos (digits2_pos m2) + k.
Proof.
  intros Hk Hm.
  pose proof (digits2_pos_bounds m1) as [Hl1 Hu1].
  pose proof (digits2_pos_bounds m2) as [Hl2 Hu2].
  set (d1 := Z.pos (digits2_pos m1)) in *. set (d2 := Z.pos (digits2_pos m2)) in *.
  assert (Hd1 : 0 < d1) by (unfold d1; lia). assert (Hd2 : 0 < d2) by (unfold d2; lia).
  assert (Hpk : 0 < 2 ^ k) by (apply Z.pow_pos_nonneg; lia).
  assert (Hlow : 2 ^ (d2 - 1 + k) ≤ Z.pos m1).
  { rewrite Z.pow_add_r by lia. rewrite Hm. nia. }
  assert (Hup : Z.pos m1 < 2 ^ (d2 + k)).
  { rewrite Z.pow_add_r by lia. rewrite Hm. nia. }
  assert (H1 : d2 - 1 + k < d1).
  { apply (Z.pow_lt_mono_r_iff 2); lia. }
  assert (H2 : d1 - 1 < d2 + k).
  { apply (Z.pow_lt_mono_r_iff 2); lia. }
  lia.
Qed.

Lemma pow2_split (e1 e2 : Z) : (Qpower 2 e2 == Qpower 2 e1 * Qpower 2 (e2 - e1))%Q.
Proof.
  rewrite <- Qpower_plus by done. by replace (e1 + (e2 - e1)) with e2 by lia.
Qed.

Lemma canonical_le (m1 m2 : positive) (e1 e2 : Z) :
  e1 ≤ e2 →
  canonical_mantissa prec emax m1 e1 = true →
  canonical_mantissa prec emax m2 e2 = true →
  (inject_Z (Z.pos m1) * Qpower 2 e1 == inject_Z (Z.pos m2) * Qpower 2 e2)%Q →
  m1 = m2 ∧ e1 = e2.
Proof.
  intros Hle Hc1 Hc2 Hv.
  assert (Hp : (0 < Qpower 2 e1)%Q) by (apply Qpower_0_lt; lra).
  rewrite (pow2_split e1 e2) in Hv.
  assert (Hm : (inject_Z (Z.pos m1) == inject_Z (Z.pos m2) * Qpower 2 (e2 - e1))%Q).
  { apply (Qmult_inj_r _ _ (Qpower 2 e1)); [lra|]. rewrite Hv. ring. }
  assert (Hz : (inject_Z (Z.pos m1) == inject_Z (Z.pos m2 * 2 ^ (e2 - e1)))%Q).
  { rewrite inject_Z_mult, Zpower_Qpower by lia. exact Hm. }
  apply (proj1 (inject_Z_injective _ _)) in Hz. clear Hm. rename Hz into Hm.
  pose proof (digits2_pos_shift m1 m2 (e2 - e1) ltac:(lia) Hm) as Hd.
  unfold canonical_mantissa in Hc1, Hc2.
  apply Z.eqb_eq in Hc1, Hc2.
  assert (He : e1 = e2).
  { rewrite <- Hc1, <- Hc2. f_equal. lia. }
  split; [|done]. subst e2. rewrite Z.sub_diag in Hm. simpl in Hm. lia.
Qed.

(** A number has one canonical pair of mantissa and exponent. *)
Lemma canonical_unique (m1 m2 : positive) (e1 e2 : Z) :
  canonical_mantissa prec emax m1 e1 = true →
  canonical_mantissa prec emax m2 e2 = true →
  (inject_Z (Z.pos m1) * Qpower 2 e1 == inject_Z (Z.pos m2) * Qpower 2 e2)%Q →
  m1 = m2 ∧ e1 = e2.
Proof.
  intros Hc1 Hc2 Hv. destruct (Z.le_ge_cases e1 e2) as [Hle|Hge].
  - by apply canonical_le.
  - symmetry in Hv. destruct (canonical_le m2 m1 e2 e1 Hge Hc2 Hc1 Hv) as [-> ->]. done.
Qed.

Lemma finite_value_pos (m : positive) (e : Z) : (0 < inject_Z (Z.pos m) * Qpower 2 e)%Q.
Proof.
  apply Qmult_lt_0_compat; [|apply Qpower_0_lt; lra].
  unfold Qlt. simpl. lia.
Qed.

(** Finite doubles that stand for the same number are equal under [==]. *)
Lemma same_number_eqb (x y : double) :
  same_number x y = true → PrimFloat.eqb x y = true.
Proof.
  unfold same_number, double_value. rewrite FloatAxioms.eqb_spec.
  pose proof (Prim2SF_valid x) as Hx. pose proof (Prim2SF_valid y) as Hy.
  destruct (Prim2SF x) as [sx|sx| |sx mx ex]; try done;
    destruct (Prim2SF y) as [sy|sy| |sy my ey]; try done; intros H;
    apply Qeq_bool_iff in H.
  - exfalso. pose proof (finite_value_pos my ey). destruct sy; lra.
  - exfalso. pose proof (finite_value_pos mx ex). destruct sx; lra.
  - simpl in Hx, Hy. unfold bounded in Hx, Hy.
    apply andb_true_iff in Hx as [Hx _]. apply andb_true_iff in Hy as [Hy _].
    pose proof (finite_value_pos mx ex). pose proof (finite_value_pos my ey).
    assert (Hs : sx = sy) by (destruct sx, sy; try done; exfalso; lra).
    subst sy.
    assert (Hv : (inject_Z (Z.pos mx) * Qpower 2 ex == inject_Z (Z.pos my) * Qpower 2 ey)%Q)
      by (destruct sx; lra).
    destruct (canonical_unique _ _ _ _ Hx Hy Hv) as [-> ->].
    unfold SFeqb, SFcompare. rewrite Z.compare_refl, Pos.compare_cont_refl.
    by destruct sx.
Qed.

Lemma exact_add_spec (x y : double) :
  exact_add x y = true →
  ∃ p q r, double_value x = Some p ∧ double_value y = Some q ∧
           double_value (PrimFloat.add x y) = Some r ∧ (r == p + q)%Q.
Proof.
  unfold exact_add.
  destruct (double_value x) as [p|]; [|done].
  destruct (double_value y) as [q|]; [|done].
  destruct (double_value (PrimFloat.add x y)) as [r|]; [|done].
  intros H. apply Qeq_bool_iff in H. by exists p, q, r.
Qed.

Lemma exact_sub_spec (x y : double) :
  exact_sub x y = true →
  ∃ p q r, double_value x = Some p ∧ double_value y = Some q ∧
           double_value (PrimFloat.sub x y) = Some r ∧ (r == p - q)%Q.
Proof.
  unfold exact_sub.
  destruct (double_value x) as [p|]; [|done].
  destruct (double_value y) as [q|]; [|done].
  destruct (double_value (PrimFloat.sub x y)) as [r|]; [|done].
  intros H. apply Qeq_bool_iff in H. by exists p, q, r.
Qed.

(** The exact sum after the propensity of one reaction has changed. *)
Lemma real_sum_insert (rs : list ReactionClass.t) (r : nat) (R : ReactionClass.t)
    (new_a : double) (y q_old q_new : Q) :
  rs !! r = Some R → real_sum rs = Some y →
  double_value (ReactionClass.get_a R) = Some q_old →
  double_value new_a = Some q_new →
  ∃ y', real_sum (<[r := ReactionClass.with_a R new_a]> rs) = Some y' ∧
        (y' == y - q_old + q_new)%Q.
Proof.
  intros Hr Hy Hold Hnew. revert r y Hr Hy.
  induction rs as [|R0 rs IH]; intros [|r] y Hr Hy; simpl in *; try done.
  - injection Hr as ->. rewrite Hold in Hy. simpl in Hy.
    destruct (real_sum rs) as [t|]; [|done]. simpl in Hy. injection Hy as <-.
    unfold ReactionClass.get_a in *. simpl in *. rewrite Hnew. simpl.
    eexists. split; [reflexivity|]. lra.
  - destruct (double_value (ReactionClass.get_a R0)) as [q0|]; [|done]. simpl in *.
    destruct (real_sum rs) as [t|] eqn:Ht; [|done]. simpl in Hy. injection Hy as <-.
    destruct (IH r t Hr eq_refl) as (t' & -> & Ht'). simpl.
    eexists. split; [reflexivity|]. lra.
Qed.

(** One change whose two operations are exact keeps I5 over the numbers. *)
Lemma change_propensity_keeps_exact_sum (s : System) (r : nat) (new_a : double) :
  propensity_sum_exact s = true → update_is_exact s r new_a = true →
  ∃ s', change_propensity s r new_a = Some s' ∧ propensity_sum_exact s' = true.
Proof.
  unfold propensity_sum_exact, update_is_exact, change_propensity.
  destruct (double_value (a_tot s)) as [x|] eqn:Hx; [|done].
  destruct (real_sum (allReactions s)) as [y|] eqn:Hy; [|done].
  intros Hxy. apply Qeq_bool_iff in Hxy.
  destruct (allReactions s !! r) as [R|] eqn:Hr; [|done].
  intros Hex. apply andb_true_iff in Hex as [Hsub Hadd].
  apply exact_sub_spec in Hsub as (qn & qo & qd & Hqn & Hqo & Hqd & Hd).
  apply exact_add_spec in Hadd as (x0 & qd0 & x' & Hx0 & Hqd0 & Hx' & Hs).
  rewrite Hx in Hx0. injection Hx0 as <-.
  rewrite Hqd in Hqd0. injection Hqd0 as <-.
  simpl. eexists. split; [reflexivity|]. simpl.
  rewrite Hx'.
  destruct (real_sum_insert _ _ _ new_a _ _ _ Hr Hy Hqo Hqn) as (y' & -> & Hy').
  apply Qeq_bool_iff. lra.
Qed.

Lemma changes_keep_exact_sum (changes : list (nat * double)) (s : System) :
  propensity_sum_exact s = true → updates_are_exact s changes = true →
  ∃ s', change_propensities s changes = Some s' ∧ propensity_sum_exact s' = true.
Proof.
  revert s. induction changes as [|[r new_a] changes IH]; intros s Hs; simpl.
  - intros _. by exists s.
  - intros Hex. apply andb_true_iff in Hex as [Hone Hrest].
    destruct (change_propensity_keeps_exact_sum s r new_a Hs Hone) as (s1 & Hs1 & Hok1).
    rewrite Hs1 in *. simpl. by apply IH.
Qed.

(** A summation without rounding returns the exact sum. *)
Lemma sum_is_exact_spec (rs : list ReactionClass.t) (acc : double) (q : Q) :
  double_value acc = Some q → sum_is_exact acc rs = true →
  ∃ t v, real_sum rs = Some t ∧
         double_value (foldl (λ acc r, PrimFloat.add acc (ReactionClass.get_a r)) acc rs)
           = Some v ∧
         (v == q + t)%Q.
Proof.
  revert acc q. induction rs as [|R rs IH]; intros acc q Hacc; simpl.
  - intros _. exists 0%Q, q. split; [done|]. split; [done|]. lra.
  - intros Hex. apply andb_true_iff in Hex as [Hadd Hrest].
    apply exact_add_spec in Hadd as (q0 & qa & q1 & Hq0 & Hqa & Hq1 & Hsum).
    rewrite Hacc in Hq0. injection Hq0 as <-.
    destruct (IH _ _ Hq1 Hrest) as (t & v & Ht & Hv & Hvt).
    rewrite Hqa, Ht. simpl. exists (qa + t)%Q, v.
    split; [done|]. split; [done|]. lra.
Qed.

(** C1, amended.  I5 holds as far as the binary64 operations that
    maintain [a_tot] are exact.  If [a_tot] stands for the sum of the
    numbers the propensities stand for, then after any series of changes of
    propensities, each handed to [update_A_tot(r, old_a, new_a)] and none of
    them rounding in the subtraction [new_a - old_a] or in the addition to
    [a_tot], it still does; and if the summation of [recompute_A_tot] does
    not round either, [a_tot] and the value [recompute_A_tot] would return
    are the same number, so that [a_tot == recompute_A_tot()] holds. *)
Theorem propensity_sum_kept_by_exact_updates (s : System) (changes : list (nat * double)) :
  propensity_sum_exact s = true →
  updates_are_exact s changes = true →
  ∃ s', change_propensities s changes = Some s' ∧
        propensity_sum_exact s' = true ∧
        (sum_is_exact 0%float (allReactions s') = true →
         same_number (get_A_tot s') (recompute_A_tot s').2 = true ∧
         propensity_sum_ok s' ∧
         propensity_sum_exact (recompute_A_tot s').1 = true).
Proof.
  intros Hs Hex.
  destruct (changes_keep_exact_sum changes s Hs Hex) as (s' & Hrun & Hok).
  exists s'. split; [done|]. split; [done|].
  intros Hsum.
  destruct (sum_is_exact_spec (allReactions s') 0%float 0%Q eq_refl Hsum)
    as (t & v & Ht & Hv & Hvt).
  unfold propensity_sum_exact in Hok. rewrite Ht in Hok.
  destruct (double_value (a_tot s')) as [x|] eqn:Hx; [|done].
  apply Qeq_bool_iff in Hok.
  assert (Hsame : same_number (get_A_tot s') (recompute_A_tot s').2 = true).
  { unfold same_number, get_A_tot, recompute_A_tot, sum_a. simpl.
    rewrite Hx, Hv. apply Qeq_bool_iff. lra. }
  split; [done|]. split; [by apply same_number_eqb|].
  unfold propensity_sum_exact, recompute_A_tot, sum_a. simpl.
  rewrite Hv, Ht. apply Qeq_bool_iff. lra.
Qed.

Lemma propensity_sum_kept_by_exact_updates_witness :
  let s := mkSystem 3 0 [ReactionClass.mk 1 1; ReactionClass.mk 1 2] in
  ∃ s', change_propensities s [(0%nat, 4%float); (1%nat, 0.5%float)] = Some s' ∧
        get_A_tot s' = 4.5%float ∧
        (recompute_A_tot s').2 = 4.5%float ∧
        propensity_sum_exact s' = true ∧
        propensity_sum_ok s'.
Proof.
  intros s.
  destruct (propensity_sum_kept_by_exact_updates s [(0%nat, 4%float); (1%nat, 0.5%float)])
    as (s' & Hrun & Hok & Hsame).
  - vm_compute. reflexivity.
  - vm_compute. reflexivity.
  - exists s'. split; [exact Hrun|].
    assert (Hs' : s' = mkSystem 4.5 0 [ReactionClass.mk 1 4; ReactionClass.mk 1 0.5])
      by (vm_compute in Hrun; by injection Hrun as <-).
    split; [by rewrite Hs'|]. split; [by rewrite Hs'|]. split; [exact Hok|].
    apply Hsame. rewrite Hs'. vm_compute. reflexivity.
Defined.

(** C1, as the claim states it, fails.  Two reactions have the
    propensities 2^53 and 1; their sum in binary64 is 2^53 (the 1 is lost
    to rounding), and [a_tot] holds it: I5 holds as the program can test it.
    The propensity of the first reaction then changes to 0, and
    [update_A_tot] accumulates the delta: [a_tot] becomes 0, while
    [recompute_A_tot] would return 1. *)
Lemma incremental_update_loses_the_sum :
  let s := mkSystem 0x1p53 0 [ReactionClass.mk 1 0x1p53; ReactionClass.mk 1 1] in
  propensity_sum_ok s ∧
  ∃ s', change_propensity s 0 0%float = Some s' ∧
        get_A_tot s' = 0%float ∧
        (recompute_A_tot s').2 = 1%float ∧
        ¬ propensity_sum_ok s' ∧
        same_number (get_A_tot s') (recompute_A_tot s').2 = false.
Proof.
  intros s. split; [vm_compute; reflexivity|].
  eexists. split; [vm_compute; reflexivity|].
  split; [reflexivity|]. split; [reflexivity|].
  split; [|vm_compute; reflexivity].
  unfold propensity_sum_ok. vm_compute. discriminate.
Qed.


(** The failure does not hang on how [update_A_tot] combines its
    arguments: no update that computes the new [a_tot] from the old
    [a_tot], [old_a] and [new_a] keeps I5 in every system.  Two systems
    agree on these three numbers (the second propensity, 1 or 0, is lost in
    the sum 2^53), and their sums after the change are 1 and 0. *)
Lemma no_incremental_update_keeps_the_sum (update : double → double → double → double) :
  ∃ (s : System) (r : nat) (R : ReactionClass.t) (new_a : double),
    allReactions s !! r = Some R ∧
    propensity_sum_ok s ∧
    ¬ propensity_sum_ok
        (with_a_tot
           (with_allReactions s (<[r := ReactionClass.with_a R new_a]> (allReactions s)))
           (update (a_tot s) (ReactionClass.get_a R) new_a)).
Proof.
  set (v := update 0x1p53%float 0x1p53%float 0%float).
  destruct (PrimFloat.eqb v 1) eqn:Hv1.
  - exists (mkSystem 0x1p53 0 [ReactionClass.mk 1 0x1p53; ReactionClass.mk 1 0]),
      0%nat, (ReactionClass.mk 1 0x1p53), 0%float.
    split; [reflexivity|]. split; [vm_compute; reflexivity|].
    unfold propensity_sum_ok, get_A_tot, recompute_A_tot. cbn [snd a_tot with_a_tot].
    change (sum_a _) with 0%float.
    change (update _ _ _) with v.
    rewrite FloatAxioms.eqb_spec in Hv1 |- *.
    change (Prim2SF 1) with (S754_finite false 4503599627370496 (-52)) in Hv1.
    change (Prim2SF 0) with (S754_zero false).
    destruct (Prim2SF v) as [sv|sv| |sv mv ev]; try done; by destruct sv.
  - exists (mkSystem 0x1p53 0 [ReactionClass.mk 1 0x1p53; ReactionClass.mk 1 1]),
      0%nat, (ReactionClass.mk 1 0x1p53), 0%float.
    split; [reflexivity|]. split; [vm_compute; reflexivity|].
    unfold propensity_sum_ok, get_A_tot, recompute_A_tot. cbn [snd a_tot with_a_tot].
    change (sum_a _) with 1%float.
    change (update _ _ _) with v. by rewrite Hv1.
Qed.

(** ** The static counters of the header *)

(** C8, as the claim states it, fails: a process runs two [System]
    objects; a null event is counted in the first and a molecule is created
    in it, and nothing is fired in the second, whose own members are what
    they were; and yet the [NULL_EVENT_COUNTER] and the unique-id count that
    the second reads have changed. *)
Lemma null_event_counted_for_one_system_shows_in_other :
  let P := mkProcess (mkGlobals 0 0) [mkSystem 0 0 []; mkSystem 0 0 []] in
  ∃ P', fireEvents P [(0%nat, countNullEvent); (0%nat, countMolecule)] = Some P' ∧
        systems P' !! 1%nat = systems P !! 1%nat ∧
        System_NULL_EVENT_COUNTER P 1 = 0 ∧ System_NULL_EVENT_COUNTER P' 1 = 1 ∧
        Molecule_getUniqueIdCount P 1 = 0 ∧ Molecule_getUniqueIdCount P' 1 = 1 ∧
        System_NULL_EVENT_COUNTER P' 1 ≠ System_NULL_EVENT_COUNTER P 1 ∧
        Molecule_getUniqueIdCount P' 1 ≠ Molecule_getUniqueIdCount P 1.
Proof.
  intros P. eexists. split; [vm_compute; reflexivity|].
  split; [reflexivity|]. split; [reflexivity|]. split; [reflexivity|].
  split; [reflexivity|]. split; [reflexivity|]. split; discriminate.
Qed.

(** C8, amended.  [NULL_EVENT_COUNTER] and [uniqueIdCount] are static
    members: process-wide state, not state of a [System] object.  An event
    fired in one [System] leaves the own members of every other [System]
    unchanged, but the counter values that every [System] of the process
    reads afterwards are the ones the event left: another [System] reads an
    unchanged counter only if the event did not change it. *)
Theorem static_counters_are_process_wide
    (P : Process) (i : nat) (ev : Event) (s s' : System) (g' : Globals) :
  systems P !! i = Some s →
  ev (statics P, s) = Some (g', s') →
  ∃ P', fireEvent P i ev = Some P' ∧
        (∀ j, j ≠ i →
           systems P' !! j = systems P !! j ∧
           System_getGlobalEventCounter P' j = System_getGlobalEventCounter P j) ∧
        (∀ j, System_NULL_EVENT_COUNTER P' j = NULL_EVENT_COUNTER g' ∧
              Molecule_getUniqueIdCount P' j = uniqueIdCount g') ∧
        (∀ j, (System_NULL_EVENT_COUNTER P' j = System_NULL_EVENT_COUNTER P j
               ↔ NULL_EVENT_COUNTER g' = NULL_EVENT_COUNTER (statics P)) ∧
              (Molecule_getUniqueIdCount P' j = Molecule_getUniqueIdCount P j
               ↔ uniqueIdCount g' = uniqueIdCount (statics P))).
Proof.
  intros Hs Hev. unfold fireEvent. rewrite Hs. simpl. rewrite Hev. simpl.
  eexists. split; [reflexivity|].
  unfold System_getGlobalEventCounter, System_NULL_EVENT_COUNTER,
    Molecule_getUniqueIdCount, getUniqueIdCount. simpl.
  split; [|split].
  - intros j Hj. rewrite list_lookup_insert_ne by done. done.
  - done.
  - done.
Qed.

Lemma static_counters_are_process_wide_witness :
  let s := mkSystem 0 0 [] in
  let P := mkProcess (mkGlobals 5 2) [s; mkSystem 0 7 []] in
  ∃ P', fireEvent P 0 countNullEvent = Some P' ∧
        systems P' !! 1%nat = systems P !! 1%nat ∧
        System_getGlobalEventCounter P' 1 = Some 7 ∧
        System_NULL_EVENT_COUNTER P' 1 = 6 ∧
        Molecule_getUniqueIdCount P' 1 = 2.
Proof.
  intros s P.
  destruct (static_counters_are_process_wide P 0 countNullEvent s s (mkGlobals 6 2)
              eq_refl eq_refl) as (P' & Hfire & Hown & Hread & _).
  exists P'. split; [exact Hfire|].
  destruct (Hown 1%nat) as [Hsys Hcount]; [lia|].
  split; [exact Hsys|]. split; [rewrite Hcount; reflexivity|].
  destruct (Hread 1%nat) as [Hnull Huid].
  split; [exact Hnull|exact Huid].
Defined.

(* ===================================================================== *)
(** * Further properties of the inline code *)
(* ===================================================================== *)

(** ** Mapping-set identifiers: how the calls compose *)

Lemma StdSet_head_below (a : Z) (s : StdSet.t) :
  StdSet.wf (a :: s) → ∀ x, x ∈ s → a < x.
Proof.
  intros Hwf. inversion Hwf as [|? ? _ Ha]; subst. by rewrite Forall_forall in Ha.
Qed.

Lemma StdSet_wf_tail (a : Z) (s : StdSet.t) : StdSet.wf (a :: s) → StdSet.wf s.
Proof. intros Hwf. by inversion Hwf. Qed.

(** Two ordered sets with the same elements are the same sequence. *)
Lemma StdSet_ext (s1 s2 : StdSet.t) :
  StdSet.wf s1 → StdSet.wf s2 → (∀ x, x ∈ s1 ↔ x ∈ s2) → s1 = s2.
Proof.
  revert s2. induction s1 as [|a s1 IH]; intros [|b s2] H1 H2 Hext.
  - done.
  - exfalso. eapply not_elem_of_nil, Hext, elem_of_cons. by left.
  - exfalso. eapply not_elem_of_nil, Hext, elem_of_cons. by left.
  - pose proof (StdSet_head_below _ _ H1) as Ha.
    pose proof (StdSet_head_below _ _ H2) as Hb.
    assert (a = b) as ->.
    { assert (Hab : a ∈ b :: s2) by (apply Hext, elem_of_cons; by left).
      assert (Hba : b ∈ a :: s1) by (apply Hext, elem_of_cons; by left).
      apply elem_of_cons in Hab as [?|Hab]; [done|].
      apply elem_of_cons in Hba as [?|Hba]; [done|].
      specialize (Ha _ Hba). specialize (Hb _ Hab). lia. }
    f_equal. apply IH; [by eapply StdSet_wf_tail|by eapply StdSet_wf_tail|].
    intros x. split; intros Hx.
    + assert (Hx' : x ∈ b :: s2) by (apply Hext, elem_of_cons; by right).
      apply elem_of_cons in Hx' as [->|?]; [|done]. specialize (Ha _ Hx). lia.
    + assert (Hx' : x ∈ b :: s1) by (apply Hext, elem_of_cons; by right).
      apply elem_of_cons in Hx' as [->|?]; [|done]. specialize (Hb _ Hx). lia.
Qed.

Lemma StdSet_erase_absent (x : Z) (s : StdSet.t) :
  StdSet.wf s → x ∉ s → StdSet.erase x s = s.
Proof.
  intros Hwf Hx. apply StdSet_ext; [by apply StdSet_erase_wf|done|].
  intros y. rewrite StdSet_erase_elem by done. split; [by intros [_ ?]|].
  intros Hy. split; [|done]. by intros ->.
Qed.

Lemma StdSet_erase_insert (x : Z) (s : StdSet.t) :
  StdSet.wf s → x ∉ s → StdSet.erase x (StdSet.insert_value x s).1 = s.
Proof.
  intros Hwf Hx. apply StdSet_ext; [by apply StdSet_erase_wf, StdSet_insert_wf|done|].
  intros y. rewrite StdSet_erase_elem by (by apply StdSet_insert_wf).
  rewrite StdSet_insert_elem. split.
  - by intros [Hne [?|?]].
  - intros Hy. split; [by intros ->|by right].
Qed.

Lemma with_rxnListMappingId2_same (m : Molecule) :
  with_rxnListMappingId2 m (rxnListMappingId2 m) = m.
Proof. by destruct m. Qed.

Lemma with_rxnListMappingId2_twice (m : Molecule) (l1 l2 : list StdSet.t) :
  with_rxnListMappingId2 (with_rxnListMappingId2 m l1) l2 = with_rxnListMappingId2 m l2.
Proof. done. Qed.

Lemma differs_at_rule_refl (m : Molecule) (r : nat) (s : StdSet.t) :
  rxnListMappingId2 m !! r = Some s → differs_at_rule m m r s.
Proof.
  intros Hs. unfold differs_at_rule. rewrite list_insert_id by done.
  by rewrite with_rxnListMappingId2_same.
Qed.

Lemma differs_at_rule_trans (m m1 m2 : Molecule) (r : nat) (s1 s2 : StdSet.t) :
  differs_at_rule m m1 r s1 → differs_at_rule m1 m2 r s2 → differs_at_rule m m2 r s2.
Proof.
  unfold differs_at_rule. intros -> ->. simpl.
  by rewrite list_insert_insert_eq.
Qed.

Lemma differs_at_rule_lookup (m m' : Molecule) (r : nat) (s s' : StdSet.t) :
  rxnListMappingId2 m !! r = Some s → differs_at_rule m m' r s' →
  rxnListMappingId2 m' !! r = Some s'.
Proof.
  intros Hs ->. simpl. apply list_lookup_insert_eq. by eapply lookup_lt_Some.
Qed.

(** X1.  Inserting an identifier that is new and then deleting it gives
    back the molecule as it was: [setRxnListMappingId(r, id)] returns [true]
    and [deleteRxnListMappingId(r, id)] undoes it. *)
Theorem set_then_delete_restores (m : Molecule) (r : nat) (s : StdSet.t) (id : Z) :
  getRxnListMappingSet m r = Some s → StdSet.wf s → id ∉ s → id ≠ -1 →
  ∃ m1, setRxnListMappingId m r id = Some (m1, true) ∧
        deleteRxnListMappingId m1 r id = Some m.
Proof.
  unfold getRxnListMappingSet. intros Hs Hwf Hid Hneg.
  assert (Hr : (r < length (rxnListMappingId2 m))%nat) by (by eapply lookup_lt_Some).
  unfold setRxnListMappingId. rewrite Hs. simpl.
  destruct (id =? -1) eqn:Heq; [apply Z.eqb_eq in Heq; done|].
  rewrite (proj2 (StdSet_insert_flag id s Hwf) Hid).
  eexists. split; [reflexivity|].
  unfold deleteRxnListMappingId. simpl.
  rewrite list_lookup_insert_eq by done. simpl.
  rewrite StdSet_erase_insert by done.
  rewrite list_insert_insert_eq, (list_insert_id _ _ _ Hs).
  by rewrite with_rxnListMappingId2_twice, with_rxnListMappingId2_same.
Qed.

Lemma set_then_delete_restores_witness :
  let m := with_rxnListMappingId2 (newMolecule typeA 7 0) [[3; 5]] in
  getRxnListMappingSet m 0 = Some [3; 5] ∧
  setRxnListMappingId m 0 4 = Some (with_rxnListMappingId2 m [[3; 4; 5]], true) ∧
  ∃ m1, setRxnListMappingId m 0 4 = Some (m1, true) ∧
        deleteRxnListMappingId m1 0 4 = Some m.
Proof.
  intros m. split; [reflexivity|]. split; [reflexivity|].
  apply (set_then_delete_restores m 0 [3; 5] 4).
  - reflexivity.
  - repeat (constructor; try lia).
  - intros H. apply elem_of_cons in H as [H|H]; [lia|].
    apply elem_of_cons in H as [H|H]; [lia|]. by apply elem_of_nil in H.
  - lia.
Defined.

(** X2.  [deleteRxnListMappingId(r, id)] removes [id] from the set of rule
    [r] and nothing else: the other identifiers and the sets of the other
    rules stay, deleting an identifier that is not there changes nothing,
    and afterwards [getRxnListMappingId(r)] does not return [id] (for
    [id ≠ -1]; [-1] is what the empty set returns). *)
Theorem deleteRxnListMappingId_removes_only_id
    (m : Molecule) (r : nat) (s : StdSet.t) (id : Z) :
  getRxnListMappingSet m r = Some s → StdSet.wf s →
  ∃ m' s',
    deleteRxnListMappingId m r id = Some m' ∧
    getRxnListMappingSet m' r = Some s' ∧
    StdSet.wf s' ∧
    (∀ x, x ∈ s' ↔ x ≠ id ∧ x ∈ s) ∧
    (id ∉ s → m' = m) ∧
    (∀ r', r' ≠ r → getRxnListMappingSet m' r' = getRxnListMappingSet m r') ∧
    (id ≠ -1 → getRxnListMappingId m' r ≠ Some id).
Proof.
  unfold getRxnListMappingSet. intros Hs Hwf.
  assert (Hr : (r < length (rxnListMappingId2 m))%nat) by (by eapply lookup_lt_Some).
  unfold deleteRxnListMappingId. rewrite Hs. simpl.
  eexists _, _. split; [reflexivity|]. simpl.
  split; [by apply list_lookup_insert_eq|].
  split; [by apply StdSet_erase_wf|].
  split; [intros x; by apply StdSet_erase_elem|].
  split; [|split].
  - intros Hid. rewrite StdSet_erase_absent by done.
    rewrite (list_insert_id _ _ _ Hs). apply with_rxnListMappingId2_same.
  - intros r' Hne. by apply list_lookup_insert_ne.
  - intros Hneg. unfold getRxnListMappingId. simpl.
    rewrite list_lookup_insert_eq by done. simpl.
    pose proof (StdSet_erase_wf id s Hwf) as Hwf'.
    pose proof (StdSet_erase_elem id s) as Hel.
    destruct (StdSet.erase id s) as [|a s'] eqn:He; simpl.
    + intros [= ?]. lia.
    + unfold StdSet.size. simpl.
      destruct (0 <? Z.pos (Pos.of_succ_nat (length s'))) eqn:Hpos;
        [|apply Z.ltb_ge in Hpos; lia].
      unfold StdSet.deref_begin. simpl. intros [= ->].
      assert (Hin : id ∈ id :: s') by (apply elem_of_cons; by left).
      apply Hel in Hin; [|done]. by destruct Hin.
Qed.

Lemma deleteRxnListMappingId_removes_only_id_witness :
  let m := with_rxnListMappingId2 (newMolecule typeA 7 0) [[3; 5]] in
  deleteRxnListMappingId m 0 3 = Some (with_rxnListMappingId2 m [[5]]) ∧
  deleteRxnListMappingId m 0 4 = Some m ∧
  ∃ m' s', deleteRxnListMappingId m 0 3 = Some m' ∧
           getRxnListMappingSet m' 0 = Some s' ∧ StdSet.wf s'.
Proof.
  intros m. split; [reflexivity|]. split; [reflexivity|].
  destruct (deleteRxnListMappingId_removes_only_id m 0 [3; 5] 3 eq_refl
              ltac:(repeat (constructor; try lia)))
    as (m' & s' & Hd & Hg & Hwf & _).
  by exists m', s'.
Defined.

Lemma StdSet_insert_length (x : Z) (s : StdSet.t) :
  Z.of_nat (length (StdSet.insert_value x s).1)
    = Z.of_nat (length s) + (if (StdSet.insert_value x s).2 then 1 else 0).
Proof.
  induction s as [|a s IH]; simpl; [done|].
  destruct (x <? a); simpl; [lia|]. destruct (x =? a); simpl; lia.
Qed.

Lemma setRxnListMappingId_step (m : Molecule) (r : nat) (s : StdSet.t) (id : Z) :
  rxnListMappingId2 m !! r = Some s → id ≠ -1 →
  ∃ m1, setRxnListMappingId m r id = Some (m1, (StdSet.insert_value id s).2) ∧
        differs_at_rule m m1 r (StdSet.insert_value id s).1.
Proof.
  intros Hs Hid. unfold setRxnListMappingId. rewrite Hs. simpl.
  destruct (id =? -1) eqn:Heq; [apply Z.eqb_eq in Heq; done|].
  eexists. split; reflexivity.
Qed.

(** What a series of insertions for one rule leaves. *)
Lemma setRxnListMappingId_all_spec (ids : list Z) (m : Molecule) (r : nat) (s : StdSet.t) :
  rxnListMappingId2 m !! r = Some s → StdSet.wf s → -1 ∉ ids →
  ∃ m' flags s',
    setRxnListMappingId_all m r ids = Some (m', flags) ∧
    differs_at_rule m m' r s' ∧
    StdSet.wf s' ∧
    (∀ x, x ∈ s' ↔ x ∈ s ∨ x ∈ ids) ∧
    Z.of_nat (length s') = Z.of_nat (length s) + count_true flags ∧
    length flags = length ids.
Proof.
  revert m s. induction ids as [|id ids IH]; intros m s Hs Hwf Hneg.
  - exists m, [], s. split; [done|]. split; [by apply differs_at_rule_refl|].
    split; [done|]. split; [|split; [unfold count_true; simpl; lia|done]].
    intros x. split; [by left|]. by intros [?|?%elem_of_nil].
  - apply not_elem_of_cons in Hneg as [Hid Hneg].
    destruct (setRxnListMappingId_step m r s id Hs) as (m1 & Hset & Hd1); [done|].
    pose proof (differs_at_rule_lookup _ _ _ _ _ Hs Hd1) as Hs1.
    destruct (IH m1 _ Hs1 (StdSet_insert_wf id s Hwf) Hneg)
      as (m' & flags & s' & Hall & Hd & Hwf' & Hel & Hlen & Hfl).
    exists m', ((StdSet.insert_value id s).2 :: flags), s'.
    split; [simpl; rewrite Hset; simpl; by rewrite Hall|].
    split; [by eapply differs_at_rule_trans|].
    split; [done|]. split; [|split].
    + intros x. rewrite Hel, StdSet_insert_elem, elem_of_cons. tauto.
    + rewrite Hlen, StdSet_insert_length. unfold count_true.
      rewrite filter_cons. destruct (StdSet.insert_value id s).2; simpl; lia.
    + simpl. by rewrite Hfl.
Qed.

(** X3.  The set a molecule ends with does not depend on the order in
    which identifiers are inserted, nor on repetitions: two series of
    [setRxnListMappingId(r, id)] calls (none with -1) that insert the same
    identifiers leave the same molecule, and the same number of calls
    return [true]. *)
Theorem insertion_order_is_irrelevant
    (m : Molecule) (r : nat) (s : StdSet.t) (ids1 ids2 : list Z) :
  getRxnListMappingSet m r = Some s → StdSet.wf s →
  -1 ∉ ids1 → -1 ∉ ids2 → (∀ x, x ∈ ids1 ↔ x ∈ ids2) →
  ∃ m' flags1 flags2,
    setRxnListMappingId_all m r ids1 = Some (m', flags1) ∧
    setRxnListMappingId_all m r ids2 = Some (m', flags2) ∧
    count_true flags1 = count_true flags2.
Proof.
  unfold getRxnListMappingSet. intros Hs Hwf Hn1 Hn2 Hsame.
  destruct (setRxnListMappingId_all_spec ids1 m r s Hs Hwf Hn1)
    as (m1 & f1 & s1 & Hall1 & Hd1 & Hwf1 & Hel1 & Hlen1 & _).
  destruct (setRxnListMappingId_all_spec ids2 m r s Hs Hwf Hn2)
    as (m2 & f2 & s2 & Hall2 & Hd2 & Hwf2 & Hel2 & Hlen2 & _).
  assert (s1 = s2) as ->.
  { apply StdSet_ext; [done|done|]. intros x. rewrite Hel1, Hel2, Hsame. tauto. }
  exists m1, f1, f2. split; [done|]. split; [|lia].
  unfold differs_at_rule in Hd1, Hd2. by rewrite Hall2, Hd2, Hd1.
Qed.

Lemma insertion_order_is_irrelevant_witness :
  let m := with_rxnListMappingId2 (newMolecule typeA 7 0) [[5]] in
  setRxnListMappingId_all m 0 [9; 2; 5; 2]
    = Some (with_rxnListMappingId2 m [[2; 5; 9]], [true; true; false; false]) ∧
  setRxnListMappingId_all m 0 [5; 2; 9]
    = Some (with_rxnListMappingId2 m [[2; 5; 9]], [false; true; true]) ∧
  ∃ m' flags1 flags2,
    setRxnListMappingId_all m 0 [9; 2; 5; 2] = Some (m', flags1) ∧
    setRxnListMappingId_all m 0 [5; 2; 9] = Some (m', flags2) ∧
    count_true flags1 = count_true flags2.
Proof.
  intros m. split; [reflexivity|]. split; [reflexivity|].
  apply (insertion_order_is_irrelevant m 0 [5] [9; 2; 5; 2] [5; 2; 9]).
  - reflexivity.
  - repeat constructor.
  - intros H. repeat (apply elem_of_cons in H as [H|H]; [lia|]). by apply elem_of_nil in H.
  - intros H. repeat (apply elem_of_cons in H as [H|H]; [lia|]). by apply elem_of_nil in H.
  - intros x. rewrite !elem_of_cons. pose proof (not_elem_of_nil x). tauto.
Defined.

(** X4.  After [setRxnListMappingId(r, id)] with [id ≠ -1],
    [getRxnListMappingId(r)] returns [id] if it returned [NOT_IN_RXN]
    before, and the smaller of [id] and what it returned before otherwise. *)
Theorem getRxnListMappingId_after_set
    (m : Molecule) (r : nat) (s : StdSet.t) (id old : Z) :
  getRxnListMappingSet m r = Some s → StdSet.wf s → -1 ∉ s → id ≠ -1 →
  getRxnListMappingId m r = Some old →
  ∃ m' b,
    setRxnListMappingId m r id = Some (m', b) ∧
    getRxnListMappingId m' r = Some (if old =? NOT_IN_RXN then id else Z.min id old).
Proof.
  unfold getRxnListMappingSet. intros Hs Hwf Hneg Hid Hold.
  destruct (setRxnListMappingId_step m r s id Hs Hid) as (m1 & Hset & Hd).
  exists m1, (StdSet.insert_value id s).2. split; [done|].
  pose proof (differs_at_rule_lookup _ _ _ _ _ Hs Hd) as Hs1.
  unfold getRxnListMappingId in *. rewrite Hs in Hold. rewrite Hs1. simpl in *.
  destruct s as [|a s]; simpl in *.
  - injection Hold as <-. done.
  - unfold StdSet.size, StdSet.deref_begin in Hold. simpl in Hold.
    destruct (0 <? Z.pos (Pos.of_succ_nat (length s))) eqn:Hpos;
      [|apply Z.ltb_ge in Hpos; lia].
    injection Hold as <-.
    assert (Ha : a ≠ -1) by (intros ->; apply Hneg, elem_of_cons; by left).
    destruct (a =? NOT_IN_RXN) eqn:Hna; [apply Z.eqb_eq in Hna; done|].
    destruct (id <? a) eqn:Hlt; simpl.
    + apply Z.ltb_lt in Hlt. unfold StdSet.size, StdSet.deref_begin. simpl.
      f_equal. lia.
    + apply Z.ltb_ge in Hlt. destruct (id =? a) eqn:Heq; simpl;
        unfold StdSet.size, StdSet.deref_begin; simpl.
      * f_equal. lia.
      * destruct (0 <? Z.pos (Pos.of_succ_nat (length (StdSet.insert_value id s).1))) eqn:Hp;
          [|apply Z.ltb_ge in Hp; lia].
        f_equal. lia.
Qed.

Lemma getRxnListMappingId_after_set_witness :
  let m := with_rxnListMappingId2 (newMolecule typeA 7 0) [[5; 8]] in
  getRxnListMappingId m 0 = Some 5 ∧
  (∃ m' b, setRxnListMappingId m 0 3 = Some (m', b) ∧ getRxnListMappingId m' 0 = Some 3) ∧
  (∃ m' b, setRxnListMappingId m 0 6 = Some (m', b) ∧ getRxnListMappingId m' 0 = Some 5).
Proof.
  intros m.
  assert (Hwf : StdSet.wf [5; 8]) by (repeat (constructor; try lia)).
  assert (Hneg : -1 ∉ [5; 8]).
  { intros H. repeat (apply elem_of_cons in H as [H|H]; [lia|]). by apply elem_of_nil in H. }
  split; [reflexivity|]. split.
  - exact (getRxnListMappingId_after_set m 0 [5; 8] 3 5 eq_refl Hwf Hneg
             ltac:(lia) eq_refl).
  - exact (getRxnListMappingId_after_set m 0 [5; 8] 6 5 eq_refl Hwf Hneg
             ltac:(lia) eq_refl).
Defined.

Lemma run_ops_same_rule (ops : list MappingOp) (m m1 : Molecule) (r : nat) (s : StdSet.t) :
  Forall (λ op, op_rule op = r) ops →
  rxnListMappingId2 m !! r = Some s →
  run_ops ops m = Some m1 →
  ∃ s1, differs_at_rule m m1 r s1.
Proof.
  revert m s. induction ops as [|op ops IH]; intros m s Hall Hs; simpl.
  - intros [= <-]. exists s. by apply differs_at_rule_refl.
  - inversion Hall as [|? ? Hop Hall']; subst.
    destruct (run_op op m) as [m0|] eqn:Hrun; [|done]. simpl. intros Hrest.
    assert (Hd0 : ∃ s0, differs_at_rule m m0 (op_rule op) s0).
    { destruct op as [r0 id|r0 id]; simpl in *.
      - unfold setRxnListMappingId in Hrun. rewrite Hs in Hrun. simpl in Hrun.
        destruct (id =? -1); simpl in Hrun; injection Hrun as <-; by eexists.
      - unfold deleteRxnListMappingId in Hrun. rewrite Hs in Hrun. simpl in Hrun.
        injection Hrun as <-. by eexists. }
    destruct Hd0 as [s0 Hd0].
    pose proof (differs_at_rule_lookup _ _ _ _ _ Hs Hd0) as Hs0.
    destruct (IH m0 s0 Hall' Hs0 Hrest) as [s1 Hd1].
    exists s1. by eapply differs_at_rule_trans.
Qed.

(** X5.  Clearing forgets everything that was done for the rule: after any
    series of [setRxnListMappingId] and [deleteRxnListMappingId] calls for
    rule [r], the call [setRxnListMappingId(r, -1)] leaves exactly the
    molecule it would have left without them, and [getRxnListMappingId(r)]
    returns [NOT_IN_RXN]. *)
Theorem clear_forgets_earlier_calls
    (m m1 : Molecule) (r : nat) (s : StdSet.t) (ops : list MappingOp) :
  getRxnListMappingSet m r = Some s →
  Forall (λ op, op_rule op = r) ops →
  run_ops ops m = Some m1 →
  ∃ m2,
    setRxnListMappingId m1 r (-1) = Some (m2, true) ∧
    setRxnListMappingId m r (-1) = Some (m2, true) ∧
    getRxnListMappingId m2 r = Some NOT_IN_RXN.
Proof.
  unfold getRxnListMappingSet. intros Hs Hall Hrun.
  destruct (run_ops_same_rule ops m m1 r s Hall Hs Hrun) as [s1 Hd].
  pose proof (differs_at_rule_lookup _ _ _ _ _ Hs Hd) as Hs1.
  assert (Hr : (r < length (rxnListMappingId2 m))%nat) by (by eapply lookup_lt_Some).
  unfold setRxnListMappingId. rewrite Hs, Hs1. simpl.
  eexists. split; [reflexivity|]. split.
  - rewrite Hd. simpl. by rewrite list_insert_insert_eq.
  - unfold getRxnListMappingId. rewrite Hd. simpl.
    rewrite list_insert_insert_eq, list_lookup_insert_eq by done. done.
Qed.

Lemma clear_forgets_earlier_calls_witness :
  let m := with_rxnListMappingId2 (newMolecule typeA 7 0) [[5; 8]] in
  let ops := [OpSet 0 3; OpDelete 0 8; OpSet 0 11] in
  run_ops ops m = Some (with_rxnListMappingId2 m [[3; 5; 11]]) ∧
  ∃ m2, setRxnListMappingId (with_rxnListMappingId2 m [[3; 5; 11]]) 0 (-1) = Some (m2, true) ∧
        setRxnListMappingId m 0 (-1) = Some (m2, true) ∧
        getRxnListMappingId m2 0 = Some NOT_IN_RXN.
Proof.
  intros m ops. split; [reflexivity|].
  apply (clear_forgets_earlier_calls m _ 0 [5; 8] ops).
  - reflexivity.
  - repeat constructor.
  - reflexivity.
Defined.

(** X6.  The flags returned by a series of [setRxnListMappingId(r, id)]
    calls (none with -1) count the growth of the set: the set ends with as
    many more identifiers as calls returned [true], it holds exactly the
    identifiers it held plus those inserted, and it is still ordered. *)
Theorem true_flags_count_new_ids
    (m : Molecule) (r : nat) (s : StdSet.t) (ids : list Z) :
  getRxnListMappingSet m r = Some s → StdSet.wf s → -1 ∉ ids →
  ∃ m' flags s',
    setRxnListMappingId_all m r ids = Some (m', flags) ∧
    getRxnListMappingSet m' r = Some s' ∧
    StdSet.wf s' ∧
    (∀ x, x ∈ s' ↔ x ∈ s ∨ x ∈ ids) ∧
    StdSet.size s' = StdSet.size s + count_true flags ∧
    length flags = length ids ∧
    (∀ r', r' ≠ r → getRxnListMappingSet m' r' = getRxnListMappingSet m r').
Proof.
  unfold getRxnListMappingSet. intros Hs Hwf Hneg.
  destruct (setRxnListMappingId_all_spec ids m r s Hs Hwf Hneg)
    as (m' & flags & s' & Hall & Hd & Hwf' & Hel & Hlen & Hfl).
  exists m', flags, s'. split; [done|].
  split; [by eapply differs_at_rule_lookup|].
  split; [done|]. split; [done|]. split; [done|]. split; [done|].
  intros r' Hne. rewrite Hd. simpl. by apply list_lookup_insert_ne.
Qed.

Lemma true_flags_count_new_ids_witness :
  let m := with_rxnListMappingId2 (newMolecule typeA 7 0) [[5]] in
  ∃ m' flags s',
    setRxnListMappingId_all m 0 [9; 2; 5; 2] = Some (m', flags) ∧
    getRxnListMappingSet m' 0 = Some s' ∧
    StdSet.size s' = StdSet.size [5] + count_true flags.
Proof.
  intros m.
  destruct (true_flags_count_new_ids m 0 [5] [9; 2; 5; 2] eq_refl
              ltac:(repeat constructor)
              ltac:(intros H; repeat (apply elem_of_cons in H as [H|H]; [lia|]);
                    by apply elem_of_nil in H))
    as (m' & flags & s' & Hall & Hg & _ & _ & Hsize & _).
  by exists m', flags, s'.
Defined.

(** ** [ComplexList]: the iterator and the checked access *)

Lemma nextComplex_calls_keeps (n : nat) (cl : ComplexList) :
  allComplexes (nextComplex_calls n cl).2 = allComplexes cl ∧
  useComplex (nextComplex_calls n cl).2 = useComplex cl.
Proof.
  revert cl. induction n as [|n IH]; intros cl; simpl; [done|].
  destruct (IH (nextComplex cl).2) as [-> ->].
  unfold nextComplex. by destruct (_ <? _)%nat.
Qed.

Lemma nextComplex_calls_general (n : nat) (cl : ComplexList) :
  (nextComplex_calls n cl).1
    = take n (drop (complexIter_public cl) (allComplexes cl))
      ++ replicate (n - (length (allComplexes cl) - complexIter_public cl)) 0 ∧
  ((complexIter_public cl ≤ length (allComplexes cl))%nat →
   complexIter_public (nextComplex_calls n cl).2
     = Nat.min (complexIter_public cl + n) (length (allComplexes cl))).
Proof.
  revert cl. induction n as [|n IH]; intros cl.
  - simpl. split; [done|]. lia.
  - cbn [nextComplex_calls]. unfold nextComplex.
    destruct (complexIter_public cl <? length (allComplexes cl))%nat eqn:Hlt.
    + apply Nat.ltb_lt in Hlt.
      destruct (lookup_lt_is_Some_2 _ _ Hlt) as [c Hc]. rewrite Hc. cbn [fst snd].
      destruct (IH (mkComplexList (allComplexes cl) (useComplex cl)
                      (S (complexIter_public cl)))) as [IH1 IH2].
      cbn [complexIter_public allComplexes useComplex] in IH1, IH2. split.
      * rewrite IH1, (drop_S _ _ _ Hc).
        replace (S n - (length (allComplexes cl) - complexIter_public cl))%nat
          with (n - (length (allComplexes cl) - S (complexIter_public cl)))%nat by lia.
        done.
      * intros _. rewrite IH2 by lia. lia.
    + apply Nat.ltb_ge in Hlt. cbn [fst snd].
      destruct (IH cl) as [IH1 IH2]. split.
      * rewrite IH1, drop_ge by done. rewrite !take_nil. simpl.
        replace (S n - (length (allComplexes cl) - complexIter_public cl))%nat
          with (S (n - (length (allComplexes cl) - complexIter_public cl))) by lia.
        done.
      * intros Hle. rewrite IH2 by done. lia.
Qed.

(** X7.  [resetComplexIter()] restarts the enumeration from wherever the
    iterator stands: after any number of [nextComplex()] calls, a reset is
    followed by the same results as a reset of the untouched list.  After a
    reset, [n] calls return the first [n] stored pointers in storage order,
    padded with null pointers past the end; the iterator then stands at
    position [min n size], and the stored complexes are never changed. *)
Theorem resetComplexIter_restarts (cl : ComplexList) (j n : nat) :
  nextComplex_calls n (resetComplexIter (nextComplex_calls j cl).2)
    = nextComplex_calls n (resetComplexIter cl) ∧
  (nextComplex_calls n (resetComplexIter cl)).1
    = take n (allComplexes cl) ++ replicate (n - length (allComplexes cl)) 0 ∧
  complexIter_public (nextComplex_calls n (resetComplexIter cl)).2
    = Nat.min n (length (allComplexes cl)) ∧
  allComplexes (nextComplex_calls n (resetComplexIter cl)).2 = allComplexes cl.
Proof.
  split; [|split; [|split]].
  - unfold resetComplexIter. by destruct (nextComplex_calls_keeps j cl) as [-> ->].
  - destruct (nextComplex_calls_general n (resetComplexIter cl)) as [H _].
    rewrite H. simpl. by rewrite Nat.sub_0_r.
  - destruct (nextComplex_calls_general n (resetComplexIter cl)) as [_ H].
    rewrite H; simpl; lia.
  - by destruct (nextComplex_calls_keeps n (resetComplexIter cl)) as [-> _].
Qed.

Lemma to_size_type_int (i : Z) :
  is_int i →
  StdVector.to_size_type i = if 0 <=? i then i else i + 2 ^ 64.
Proof.
  unfold is_int, StdVector.to_size_type. intros Hi.
  destruct (0 <=? i) eqn:Hpos.
  - apply Z.leb_le in Hpos. apply Z.mod_small. lia.
  - apply Z.leb_gt in Hpos. symmetry. apply (Z.mod_unique i (2 ^ 64) (-1)); lia.
Qed.

(** [at] with an [int] argument: a negative argument throws like one past
    the end. *)
Lemma StdVector_at_int {A} (v : list A) (i : Z) :
  is_int i → StdVector.size v ≤ 2 ^ 63 →
  StdVector.at_ v i = match array_read v i with
                      | Some x => StdVector.Value x
                      | None => StdVector.OutOfRange
                      end.
Proof.
  intros Hi Hsize. unfold StdVector.at_, array_read. rewrite (to_size_type_int i Hi).
  unfold StdVector.size, is_int in *.
  destruct (0 <=? i) eqn:Hpos.
  - apply Z.leb_le in Hpos. destruct (i <? Z.of_nat (length v)) eqn:Hlt; [done|].
    apply Z.ltb_ge in Hlt. rewrite lookup_ge_None_2; [done|lia].
  - apply Z.leb_gt in Hpos.
    destruct (i + 2 ^ 64 <? Z.of_nat (length v)) eqn:Hlt; [|done].
    apply Z.ltb_lt in Hlt. lia.
Qed.

(** X8.  [getComplex(ID)] is bounds-checked and agrees with the iterator:
    for [0 <= ID < size] it returns the stored pointer at [ID], which is
    what the call number [ID+1] of [nextComplex()] after a reset returns;
    for a negative [ID] and for [ID >= size] it throws [std::out_of_range]
    (the negative [int] wraps to a huge [size_type]). *)
Theorem getComplex_checked_and_agrees_with_iterator (cl : ComplexList) (ID : Z) :
  is_int ID → StdVector.size (allComplexes cl) ≤ 2 ^ 63 →
  (ID < 0 ∨ StdVector.size (allComplexes cl) ≤ ID → getComplex cl ID = StdVector.OutOfRange) ∧
  (0 ≤ ID < StdVector.size (allComplexes cl) →
   ∃ c, getComplex cl ID = StdVector.Value c ∧
        allComplexes cl !! Z.to_nat ID = Some c ∧
        (nextComplex_calls (S (Z.to_nat ID)) (resetComplexIter cl)).1 !! Z.to_nat ID = Some c).
Proof.
  intros Hint Hsize. unfold getComplex. rewrite StdVector_at_int by done.
  unfold array_read, StdVector.size in *. split.
  - intros [Hneg|Hbig].
    + destruct (0 <=? ID) eqn:Hpos; [apply Z.leb_le in Hpos; lia|done].
    + destruct (0 <=? ID); [|done]. rewrite lookup_ge_None_2; [done|lia].
  - intros [Hpos Hlt]. rewrite (proj2 (Z.leb_le 0 ID) Hpos).
    assert (Hn : (Z.to_nat ID < length (allComplexes cl))%nat) by lia.
    destruct (lookup_lt_is_Some_2 _ _ Hn) as [c Hc]. rewrite Hc.
    exists c. split; [done|]. split; [done|].
    destruct (resetComplexIter_restarts cl 0 (S (Z.to_nat ID))) as (_ & -> & _).
    rewrite lookup_app_l by (rewrite length_take; lia).
    rewrite lookup_take_lt; [done|lia].
Qed.

Lemma getComplex_checked_and_agrees_with_iterator_witness :
  let cl := mkComplexList [10; 20; 30] true 2 in
  getComplex cl (-1) = StdVector.OutOfRange ∧
  getComplex cl 3 = StdVector.OutOfRange ∧
  getComplex cl 1 = StdVector.Value 20 ∧
  ∃ c, getComplex cl 1 = StdVector.Value c ∧
       allComplexes cl !! 1%nat = Some c ∧
       (nextComplex_calls 2 (resetComplexIter cl)).1 !! 1%nat = Some c.
Proof.
  intros cl.
  assert (Hint : is_int 1) by (unfold is_int; lia).
  assert (Hsize : StdVector.size (allComplexes cl) ≤ 2 ^ 63) by (vm_compute; discriminate).
  split; [reflexivity|]. split; [reflexivity|]. split; [reflexivity|].
  apply (proj2 (getComplex_checked_and_agrees_with_iterator cl 1 Hint Hsize)).
  vm_compute. split; [discriminate|reflexivity].
Defined.

(** ** [System]: the reaction index table and the connectivity matrix *)

Lemma array_write_read {A} (p p' : list A) (i : Z) (x : A) :
  array_write p i x = Some p' →
  length p' = length p ∧
  ∀ j, array_read p' j = if bool_decide (j = i) then Some x else array_read p j.
Proof.
  unfold array_write, array_read. 
  destruct (0 <=? i) eqn:Hpos; simpl; [|done]. apply Z.leb_le in Hpos.
  destruct (i <? Z.of_nat (length p)) eqn:Hlt; [|done]. apply Z.ltb_lt in Hlt.
  intros [= <-]. split; [by rewrite length_insert|].
  intros j. case_bool_decide as Hj.
  - subst j. rewrite (proj2 (Z.leb_le 0 i) Hpos).
    apply list_lookup_insert_eq. lia.
  - destruct (0 <=? j) eqn:Hjpos; [|done]. apply Z.leb_le in Hjpos.
    apply list_lookup_insert_ne. lia.
Qed.

Lemma array_write_defined {A} (p : list A) (i : Z) (x : A) :
  is_Some (array_write p i x) ↔ is_Some (array_read p i).
Proof.
  unfold array_write, array_read. destruct (0 <=? i) eqn:Hpos; simpl.
  - apply Z.leb_le in Hpos. rewrite lookup_lt_is_Some.
    destruct (i <? Z.of_nat (length p)) eqn:Hlt.
    + apply Z.ltb_lt in Hlt. split; [intros _; lia|by eexists].
    + apply Z.ltb_ge in Hlt. split; [by intros [? ?]|lia].
  - split; by intros [? ?].
Qed.

(** X9.  [registerRxnIndex(rxnId, rxnPos, rxnIndex)] and
    [getRxnIndex(rxnId, rxnPos)] on [rxnIndexMap]: the write is defined on
    exactly the cells on which the read is; afterwards the read of that cell
    returns the registered index, and the read of every other cell returns
    what it returned before. *)
Theorem registerRxnIndex_then_getRxnIndex
    (rxnIndexMap : list (list Z)) (rxnId rxnPos rxnIndex : Z) :
  (is_Some (registerRxnIndex rxnIndexMap rxnId rxnPos rxnIndex)
     ↔ is_Some (getRxnIndex rxnIndexMap rxnId rxnPos)) ∧
  (∀ map',
     registerRxnIndex rxnIndexMap rxnId rxnPos rxnIndex = Some map' →
     getRxnIndex map' rxnId rxnPos = Some rxnIndex ∧
     ∀ rxnId' rxnPos',
       (rxnId', rxnPos') ≠ (rxnId, rxnPos) →
       getRxnIndex map' rxnId' rxnPos' = getRxnIndex rxnIndexMap rxnId' rxnPos').
Proof.
  unfold registerRxnIndex, getRxnIndex. split.
  - destruct (array_read rxnIndexMap rxnId) as [row|] eqn:Hrow; simpl.
    + rewrite <- (array_write_defined row rxnPos rxnIndex).
      destruct (array_write row rxnPos rxnIndex) as [row'|]; simpl.
      * split; [by eexists|]. intros _.
        apply array_write_defined. by rewrite Hrow.
      * split; by intros [? ?].
    + split; by intros [? ?].
  - intros map'.
    destruct (array_read rxnIndexMap rxnId) as [row|] eqn:Hrow; simpl; [|done].
    destruct (array_write row rxnPos rxnIndex) as [row'|] eqn:Hw; simpl; [|done].
    intros Hmap.
    destruct (array_write_read _ _ _ _ Hw) as [_ Hcell].
    destruct (array_write_read _ _ _ _ Hmap) as [_ Hrows].
    split.
    + rewrite Hrows, bool_decide_eq_true_2 by done. simpl.
      by rewrite Hcell, bool_decide_eq_true_2.
    + intros i' j' Hne. rewrite Hrows. case_bool_decide as Hi; [|done].
      subst i'. simpl. rewrite Hrow. simpl.
      rewrite Hcell, bool_decide_eq_false_2; [done|congruence].
Qed.

Lemma registerRxnIndex_then_getRxnIndex_witness :
  let map := [[0; 1]; [2; 3; 4]] in
  registerRxnIndex map 1 2 9 = Some [[0; 1]; [2; 3; 9]] ∧
  registerRxnIndex map 0 2 9 = None ∧
  registerRxnIndex map (-1) 0 9 = None ∧
  getRxnIndex [[0; 1]; [2; 3; 9]] 1 2 = Some 9 ∧
  ∀ rxnId' rxnPos',
    (rxnId', rxnPos') ≠ (1, 2) →
    getRxnIndex [[0; 1]; [2; 3; 9]] rxnId' rxnPos' = getRxnIndex map rxnId' rxnPos'.
Proof.
  intros map. split; [reflexivity|]. split; [reflexivity|]. split; [reflexivity|].
  exact (proj2 (registerRxnIndex_then_getRxnIndex map 1 2 9) _ eq_refl).
Defined.

Lemma StdVector_subscript_int {A} (v : list A) (i : Z) :
  is_int i → StdVector.size v ≤ 2 ^ 63 →
  StdVector.subscript v i = array_read v i.
Proof.
  intros Hi Hsize. unfold StdVector.subscript, array_read. rewrite (to_size_type_int i Hi).
  unfold StdVector.size, is_int in *.
  destruct (0 <=? i) eqn:Hpos.
  - apply Z.leb_le in Hpos. destruct (i <? Z.of_nat (length v)) eqn:Hlt; [done|].
    apply Z.ltb_ge in Hlt. rewrite lookup_ge_None_2; [done|lia].
  - apply Z.leb_gt in Hpos.
    destruct (i + 2 ^ 64 <? Z.of_nat (length v)) eqn:Hlt; [|done].
    apply Z.ltb_lt in Hlt. lia.
Qed.

Lemma StdVector_assign_int {A} (v : list A) (i : Z) (x : A) :
  is_int i → StdVector.size v ≤ 2 ^ 63 →
  StdVector.assign v i x = array_write v i x.
Proof.
  intros Hi Hsize. unfold StdVector.assign, array_write. rewrite (to_size_type_int i Hi).
  unfold StdVector.size, is_int in *.
  destruct (0 <=? i) eqn:Hpos; simpl.
  - done.
  - apply Z.leb_gt in Hpos.
    destruct (i + 2 ^ 64 <? Z.of_nat (length v)) eqn:Hlt; [|done].
    apply Z.ltb_lt in Hlt. lia.
Qed.

Lemma matrix_ok_row (cr : list (list bool)) (i : Z) (row : list bool) :
  matrix_ok cr → array_read cr i = Some row → StdVector.size row ≤ 2 ^ 63.
Proof.
  intros [_ Hrows]. unfold array_read. destruct (0 <=? i); [|done]. intros Hrow.
  rewrite Forall_forall in Hrows. apply Hrows. by eapply list_elem_of_lookup_2.
Qed.

(** One call of [setConnectedReactions]. *)
Lemma setConnectedReactions_effect (cr cr' : list (list bool)) (rxn1 rxn2 : Z) :
  matrix_ok cr → is_int rxn1 → is_int rxn2 →
  setConnectedReactions cr rxn1 rxn2 = Some cr' →
  matrix_ok cr' ∧
  ∀ a b, is_int a → is_int b →
    areReactionsConnected cr' a b
      = (λ v, v || bool_decide ((a, b) = (rxn1, rxn2))) <$> areReactionsConnected cr a b.
Proof.
  intros Hok H1 H2. unfold setConnectedReactions.
  rewrite (StdVector_subscript_int cr rxn1 H1 (proj1 Hok)).
  destruct (array_read cr rxn1) as [row|] eqn:Hrow; simpl; [|done].
  pose proof (matrix_ok_row _ _ _ Hok Hrow) as Hrowsize.
  rewrite (StdVector_assign_int row rxn2 true H2 Hrowsize).
  destruct (array_write row rxn2 true) as [row'|] eqn:Hw; simpl; [|done].
  rewrite (StdVector_assign_int cr rxn1 row' H1 (proj1 Hok)). intros Hcr'.
  destruct (array_write_read _ _ _ _ Hw) as [Hlen Hcell].
  destruct (array_write_read _ _ _ _ Hcr') as [Hlen' Hrows].
  assert (Hok' : matrix_ok cr').
  { destruct Hok as [Hsize Hall]. split; [unfold StdVector.size in *; by rewrite Hlen'|].
    unfold array_write in Hcr'. destruct (_ && _); [|done]. injection Hcr' as <-.
    apply Forall_insert; [done|]. unfold StdVector.size in *. by rewrite Hlen. }
  split; [done|].
  intros a b Ha Hb. unfold areReactionsConnected.
  rewrite (StdVector_subscript_int cr' a Ha (proj1 Hok')).
  rewrite (StdVector_subscript_int cr a Ha (proj1 Hok)).
  rewrite Hrows. case_bool_decide as Hab.
  - subst a. rewrite Hrow. simpl.
    rewrite (StdVector_subscript_int row' b Hb) by (unfold StdVector.size in *; by rewrite Hlen).
    rewrite (StdVector_subscript_int row b Hb Hrowsize).
    rewrite Hcell. case_bool_decide as Hb2.
    + subst b. rewrite bool_decide_eq_true_2 by done.
      assert (Hsome : is_Some (array_read row rxn2)).
      { apply (array_write_defined row rxn2 true). by rewrite Hw. }
      destruct Hsome as [v ->]. simpl. by rewrite orb_true_r.
    + rewrite bool_decide_eq_false_2 by congruence.
      destruct (array_read row b); simpl; [by rewrite orb_false_r|done].
  - rewrite bool_decide_eq_false_2 by congruence.
    destruct (array_read cr a) as [rowa|] eqn:Hrowa; simpl; [|done].
    pose proof (matrix_ok_row _ _ _ Hok Hrowa) as Hsa.
    destruct (StdVector.subscript rowa b); simpl; [by rewrite orb_false_r|done].
Qed.

(** X10.  The connectivity matrix records exactly the ordered pairs it was
    given: after a series of [setConnectedReactions(rxn1, rxn2)] calls,
    [areReactionsConnected(a, b)] is true if and only if it was true before
    or [(a, b)] is one of the pairs of the series, in that order of the two
    reactions.  So a connection is never removed, and connecting [rxn1] to
    [rxn2] does not connect [rxn2] to [rxn1]. *)
Theorem connectedReactions_records_ordered_pairs
    (calls : list (Z * Z)) (cr cr' : list (list bool)) :
  matrix_ok cr → int_pairs calls →
  setConnectedReactions_all cr calls = Some cr' →
  ∀ a b, is_int a → is_int b →
    areReactionsConnected cr' a b
      = (λ v, v || bool_decide ((a, b) ∈ calls)) <$> areReactionsConnected cr a b.
Proof.
  revert cr. induction calls as [|[r1 r2] calls IH]; intros cr Hok Hints;
    cbn [setConnectedReactions_all].
  - intros [= <-] a b _ _.
    rewrite (bool_decide_eq_false_2 ((a, b) ∈ [])) by apply not_elem_of_nil.
    destruct (areReactionsConnected cr a b); simpl; [|done]. by rewrite orb_false_r.
  - inversion Hints as [|? ? [Hr1 Hr2] Hints']; subst. cbn [fst snd] in *.
    destruct (setConnectedReactions cr r1 r2) as [cr1|] eqn:Hset; [|done].
    cbn [mbind option_bind].
    intros Hrest a b Ha Hb.
    destruct (setConnectedReactions_effect _ _ _ _ Hok Hr1 Hr2 Hset) as [Hok1 Hstep].
    rewrite (IH cr1 Hok1 Hints' Hrest a b Ha Hb), (Hstep a b Ha Hb).
    destruct (areReactionsConnected cr a b) as [v|]; simpl; [|done].
    f_equal. rewrite <- orb_assoc. f_equal.
    destruct (decide ((a, b) = (r1, r2))) as [Heq|Hne].
    + rewrite (bool_decide_eq_true_2 _ Heq). simpl.
      symmetry. apply bool_decide_eq_true_2. rewrite Heq. apply elem_of_cons. by left.
    + rewrite (bool_decide_eq_false_2 _ Hne). simpl.
      apply bool_decide_ext. rewrite elem_of_cons. tauto.
Qed.

Lemma connectedReactions_records_ordered_pairs_witness :
  let cr := [[false; false]; [false; false]] in
  setConnectedReactions_all cr [(0, 1)] = Some [[false; true]; [false; false]] ∧
  setConnectedReactions cr 0 2 = None ∧
  areReactionsConnected [[false; true]; [false; false]] 0 1 = Some true ∧
  areReactionsConnected [[false; true]; [false; false]] 1 0 = Some false ∧
  ∀ a b, is_int a → is_int b →
    areReactionsConnected [[false; true]; [false; false]] a b
      = (λ v, v || bool_decide ((a, b) ∈ [(0, 1)])) <$> areReactionsConnected cr a b.
Proof.
  intros cr. split; [reflexivity|]. split; [reflexivity|].
  split; [reflexivity|]. split; [reflexivity|].
  apply (connectedReactions_records_ordered_pairs [(0, 1)] cr).
  - split; [vm_compute; discriminate|]. repeat constructor; vm_compute; discriminate.
  - repeat constructor; unfold is_int; simpl; lia.
  - reflexivity.
Defined.

(** ** [MoleculeType]: the observables of a type *)

Lemma to_int_small (n : Z) : 0 ≤ n < 2 ^ 31 → StdVector.to_int n = n.
Proof.
  intros Hn. unfold StdVector.to_int. rewrite Z.mod_small; lia.
Qed.

Lemma addMolObs_all_lists (mos : list Z) (mt : MoleculeTypeLists.t) :
  MoleculeTypeLists.molObs (MoleculeTypeLists.addMolObs_all mt mos)
    = MoleculeTypeLists.molObs mt ++ mos ∧
  MoleculeTypeLists.reactions (MoleculeTypeLists.addMolObs_all mt mos)
    = MoleculeTypeLists.reactions mt.
Proof.
  unfold MoleculeTypeLists.addMolObs_all. revert mt.
  induction mos as [|mo mos IH]; intros mt; simpl.
  - by rewrite app_nil_r.
  - destruct (IH (MoleculeTypeLists.addMolObs mt mo)) as [-> ->]. simpl.
    unfold StdVector.push_back. by rewrite <- app_assoc.
Qed.

(** X11.  [addMolObs] appends: after observables are added to a type (fewer
    than 2^31 in all), [getNumOfMolObs()] has grown by their number,
    [getMolObs] returns the [k]-th added observable at index
    [old count + k], every observable that was there keeps its index,
    [getMolObs] at the new count throws [std::out_of_range], and the
    reactions of the type are untouched. *)
Theorem addMolObs_appends (mt : MoleculeTypeLists.t) (mos : list Z) :
  StdVector.size (MoleculeTypeLists.molObs mt) + Z.of_nat (length mos) < 2 ^ 31 →
  let mt' := MoleculeTypeLists.addMolObs_all mt mos in
  MoleculeTypeLists.getNumOfMolObs mt'
    = MoleculeTypeLists.getNumOfMolObs mt + Z.of_nat (length mos) ∧
  (∀ k mo, mos !! k = Some mo →
     MoleculeTypeLists.getMolObs mt' (MoleculeTypeLists.getNumOfMolObs mt + Z.of_nat k)
       = StdVector.Value mo) ∧
  (∀ i mo, MoleculeTypeLists.getMolObs mt i = StdVector.Value mo →
     MoleculeTypeLists.getMolObs mt' i = StdVector.Value mo) ∧
  MoleculeTypeLists.getMolObs mt' (MoleculeTypeLists.getNumOfMolObs mt')
    = StdVector.OutOfRange ∧
  MoleculeTypeLists.getReactionCount mt' = MoleculeTypeLists.getReactionCount mt.
Proof.
  intros Hsize mt'.
  destruct (addMolObs_all_lists mos mt) as [Hobs Hrx]. fold mt' in Hobs, Hrx.
  unfold MoleculeTypeLists.getNumOfMolObs, MoleculeTypeLists.getMolObs,
    MoleculeTypeLists.getReactionCount, StdVector.size in *.
  rewrite Hobs, Hrx, length_app.
  rewrite !to_int_small by lia.
  split; [lia|]. split; [|split; [|split; [|done]]].
  - intros k mo Hk. unfold StdVector.at_, StdVector.to_size_type, StdVector.size.
    pose proof (lookup_lt_Some _ _ _ Hk) as Hlt.
    rewrite Z.mod_small by lia. rewrite length_app.
    destruct (_ <? _) eqn:Hb; [|apply Z.ltb_ge in Hb; lia].
    replace (Z.to_nat (Z.of_nat (length (MoleculeTypeLists.molObs mt)) + Z.of_nat k))
      with (length (MoleculeTypeLists.molObs mt) + k)%nat by lia.
    by rewrite lookup_app_r, Nat.add_comm, Nat.add_sub, Hk by lia.
  - intros i mo. unfold StdVector.at_, StdVector.size. rewrite length_app.
    destruct (StdVector.to_size_type i <? Z.of_nat (length (MoleculeTypeLists.molObs mt)))
      eqn:Hb; [|done].
    apply Z.ltb_lt in Hb.
    assert (Hpos : 0 ≤ StdVector.to_size_type i)
      by (unfold StdVector.to_size_type; apply Z.mod_pos_bound; lia).
    destruct (_ <? _) eqn:Hb2; [|apply Z.ltb_ge in Hb2; lia].
    rewrite lookup_app_l by lia. done.
  - unfold StdVector.at_, StdVector.to_size_type, StdVector.size.
    rewrite Z.mod_small by lia. rewrite length_app.
    destruct (_ <? _) eqn:Hb; [apply Z.ltb_lt in Hb; lia|done].
Qed.

Lemma addMolObs_appends_witness :
  let mt := MoleculeTypeLists.mk [100] [0] [] [7; 8] in
  let mt' := MoleculeTypeLists.addMolObs_all mt [9; 10] in
  MoleculeTypeLists.getNumOfMolObs mt' = 4 ∧
  MoleculeTypeLists.getMolObs mt' 3 = StdVector.Value 10 ∧
  MoleculeTypeLists.getMolObs mt' 4 = StdVector.OutOfRange ∧
  MoleculeTypeLists.getMolObs mt' (MoleculeTypeLists.getNumOfMolObs mt')
    = StdVector.OutOfRange.
Proof.
  intros mt mt'. split; [reflexivity|]. split; [reflexivity|]. split; [reflexivity|].
  assert (Hsize : StdVector.size (MoleculeTypeLists.molObs mt) + Z.of_nat (length [9; 10])
                    < 2 ^ 31) by (vm_compute; reflexivity).
  exact (proj1 (proj2 (proj2 (proj2 (addMolObs_appends mt [9; 10] Hsize))))).
Defined.

(** ** [Node]: the comparison functions *)

Lemma ascii_compare_refl (c : Ascii.ascii) : Ascii.compare c c = Eq.
Proof. unfold Ascii.compare. apply N.compare_refl. Qed.

Lemma string_compare_refl (s : string) : String.compare s s = Eq.
Proof.
  induction s as [|c s IH]; simpl; [done|]. by rewrite ascii_compare_refl.
Qed.

Lemma string_compare_lt_trans (s1 s2 s3 : string) :
  String.compare s1 s2 = Lt → String.compare s2 s3 = Lt → String.compare s1 s3 = Lt.
Proof.
  revert s2 s3. induction s1 as [|c1 s1 IH]; intros [|c2 s2] [|c3 s3]; simpl; try done.
  destruct (Ascii.compare c1 c2) eqn:H12; try done.
  - apply Ascii.compare_eq_iff in H12. subst c2.
    destruct (Ascii.compare c1 c3); try done. apply IH.
  - intros _. destruct (Ascii.compare c2 c3) eqn:H23; try done.
    + apply Ascii.compare_eq_iff in H23. subst c3. by rewrite H12.
    + intros _. unfold Ascii.compare in *.
      apply N.compare_lt_iff in H12. apply N.compare_lt_iff in H23.
      pose proof (N.lt_trans _ _ _ H12 H23) as H13.
      apply N.compare_lt_iff in H13. by rewrite H13.
Qed.

(** X12.  [Node::less_by_label] and [Node::less_by_index] are strict weak
    orderings, as sorting with them requires: no node is less than itself,
    the comparison is asymmetric and transitive, and two nodes tie (neither
    is less than the other) exactly when their labels, respectively their
    indices, are equal. *)
Theorem Node_comparisons_are_strict_weak_orders :
  (∀ n, Node.less_by_label n n = false) ∧
  (∀ n1 n2, Node.less_by_label n1 n2 = true → Node.less_by_label n2 n1 = false) ∧
  (∀ n1 n2 n3, Node.less_by_label n1 n2 = true → Node.less_by_label n2 n3 = true →
               Node.less_by_label n1 n3 = true) ∧
  (∀ n1 n2, Node.less_by_label n1 n2 = false ∧ Node.less_by_label n2 n1 = false
            ↔ Node.getLabel n1 = Node.getLabel n2) ∧
  (∀ n, Node.less_by_index n n = false) ∧
  (∀ n1 n2, Node.less_by_index n1 n2 = true → Node.less_by_index n2 n1 = false) ∧
  (∀ n1 n2 n3, Node.less_by_index n1 n2 = true → Node.less_by_index n2 n3 = true →
               Node.less_by_index n1 n3 = true) ∧
  (∀ n1 n2, Node.less_by_index n1 n2 = false ∧ Node.less_by_index n2 n1 = false
            ↔ Node.getIndex n1 = Node.getIndex n2).
Proof.
  unfold Node.less_by_label, Node.less_by_index, Node.getLabel, Node.getIndex, String.ltb.
  split; [|split; [|split; [|split; [|split; [|split; [|split]]]]]].
  - intros n. by rewrite string_compare_refl.
  - intros n1 n2. rewrite (String.compare_antisym (Node.label n2)).
    by destruct (String.compare (Node.label n1) (Node.label n2)).
  - intros n1 n2 n3.
    destruct (String.compare (Node.label n1) (Node.label n2)) eqn:H12; try done.
    destruct (String.compare (Node.label n2) (Node.label n3)) eqn:H23; try done.
    intros _ _. by rewrite (string_compare_lt_trans _ _ _ H12 H23).
  - intros n1 n2. split.
    + rewrite (String.compare_antisym (Node.label n2)).
      destruct (String.compare (Node.label n1) (Node.label n2)) eqn:H12; simpl.
      * intros _. by apply String.compare_eq_iff.
      * by intros [? _].
      * by intros [_ ?].
    + intros ->. by rewrite string_compare_refl.
  - intros n. apply Z.ltb_irrefl.
  - intros n1 n2 H. apply Z.ltb_lt in H. apply Z.ltb_ge. lia.
  - intros n1 n2 n3 H1 H2. apply Z.ltb_lt in H1, H2. apply Z.ltb_lt. lia.
  - intros n1 n2. rewrite !Z.ltb_ge. lia.
Qed.

(** ** [Molecule]: the setters that do not concern bonds *)

Lemma callSetter_keeps_bonds (c : MoleculeSetter) (M M' : Molecule) :
  callSetter c M = Some M' →
  bond M' = bond M ∧ indexOfBond M' = indexOfBond M ∧ component M' = component M.
Proof.
  destruct c as [cid|cid|b|o v|r id|r id]; simpl.
  - by intros [= <-].
  - by intros [= <-].
  - by intros [= <-].
  - unfold setIsObs. destruct (array_write _ _ _); simpl; [|done]. by intros [= <-].
  - unfold setRxnListMappingId. destruct (rxnListMappingId2 M !! r); simpl; [|done].
    destruct (id =? -1); simpl; by intros [= <-].
  - unfold deleteRxnListMappingId. destruct (rxnListMappingId2 M !! r); simpl; [|done].
    by intros [= <-].
Qed.

(** X13.  The inline setters [setComplexID], [moveToNewComplex], [setAlive],
    [setIsObs], [setRxnListMappingId] and [deleteRxnListMappingId] never
    touch a molecule's bonds or component states: whatever series of them is
    called on a molecule of a store, every half-edge of the store reads as
    before, so a store whose bonds are symmetric stays symmetric. *)
Theorem setters_never_touch_bonds
    (g : MolStore) (p : MolPtr) (M M' : Molecule) (calls : list MoleculeSetter) :
  g !! p = Some M →
  foldl (λ o c, o ≫= callSetter c) (Some M) calls = Some M' →
  bond M' = bond M ∧ indexOfBond M' = indexOfBond M ∧ component M' = component M ∧
  (∀ m i, bondAt (<[p := M']> g) m i = bondAt g m i) ∧
  (bond_symmetric g → bond_symmetric (<[p := M']> g)).
Proof.
  intros Hp Hcalls.
  assert (Hkeep : bond M' = bond M ∧ indexOfBond M' = indexOfBond M
                  ∧ component M' = component M).
  { clear Hp. revert M Hcalls. induction calls as [|c calls IH]; intros M; simpl.
    - by intros [= <-].
    - destruct (callSetter c M) as [M1|] eqn:Hc.
      + intros Hrest. destruct (IH _ Hrest) as (-> & -> & ->).
        by apply callSetter_keeps_bonds in Hc.
      + intros Hrest. exfalso. clear -Hrest.
        induction calls as [|c' calls IH']; simpl in Hrest; [done|by apply IH']. }
  destruct Hkeep as (Hb & Hi & Hc).
  split; [done|]. split; [done|]. split; [done|].
  assert (Hframe : ∀ m i, bondAt (<[p := M']> g) m i = bondAt g m i).
  { intros m i. by eapply bondAt_insert_same_bonds. }
  split; [done|]. intros Hsym. by eapply bond_symmetric_frame.
Qed.

Lemma setters_never_touch_bonds_witness :
  let M := with_bond (newMolecule typeA 1 0) [Some 0%nat] [0] in
  let calls := [SetComplexID 4; SetRxnListMappingId 0 6; SetAlive false;
                DeleteRxnListMappingId 0 2; MoveToNewComplex 9] in
  boundPair !! 1%nat = Some M ∧
  ∃ M', foldl (λ o c, o ≫= callSetter c) (Some M) calls = Some M' ∧
        getComplexID M' = 9 ∧ isAlive M' = false ∧
        getRxnListMappingId M' 0 = Some 6 ∧
        bond M' = bond M ∧
        ∀ m i, bondAt (<[1%nat := M']> boundPair) m i = bondAt boundPair m i.
Proof.
  intros M calls. split; [reflexivity|].
  destruct (foldl (λ o c, o ≫= callSetter c) (Some M) calls) as [M'|] eqn:Hcalls;
    [|exfalso; vm_compute in Hcalls; discriminate Hcalls].
  exists M'. split; [reflexivity|].
  destruct (setters_never_touch_bonds boundPair 1%nat M M' calls eq_refl Hcalls)
    as (Hb & _ & _ & Hframe & _).
  assert (HM' : M' = mkMolecule false 9 1 false 1 [0] [Some 0%nat] [0] [] [[6]])
    by (vm_compute in Hcalls; by injection Hcalls as <-).
  split; [by rewrite HM'|]. split; [by rewrite HM'|]. split; [by rewrite HM'|].
  split; [exact Hb|exact Hframe].
Defined.

(** ** [Molecule]: the observable flags *)

(** X14.  [setIsObs(oIndex, v)] is defined exactly for an index inside the
    [isObservable] array (outside it the write is undefined behaviour);
    afterwards [isObs(oIndex)] returns [v], [isObs] of every other index
    returns what it did before, and the complex id and the mapping sets of
    the molecule are unchanged. *)
Theorem setIsObs_then_isObs (m : Molecule) (oIndex v : Z) :
  (is_Some (setIsObs m oIndex v) ↔ 0 ≤ oIndex < Z.of_nat (length (isObservable m))) ∧
  ∀ m', setIsObs m oIndex v = Some m' →
    isObs m' oIndex = Some v ∧
    (∀ j, j ≠ oIndex → isObs m' j = isObs m j) ∧
    getComplexID m' = getComplexID m ∧
    rxnListMappingId2 m' = rxnListMappingId2 m.
Proof.
  split.
  - unfold setIsObs, array_write.
    destruct (0 <=? oIndex) eqn:Hpos; destruct (oIndex <? _) eqn:Hlt; simpl;
      try apply Z.leb_le in Hpos; try apply Z.leb_gt in Hpos;
      try apply Z.ltb_lt in Hlt; try apply Z.ltb_ge in Hlt;
      (split; [intros [? ?]; (done || lia)|intros ?; (by eexists) || lia]).
  - intros m'. unfold setIsObs.
    destruct (array_write (isObservable m) oIndex v) as [obs|] eqn:Hw; simpl; [|done].
    intros [= <-]. destruct (array_write_read _ _ _ _ Hw) as [_ Hread].
    unfold isObs. simpl. split; [|split; [|done]].
    + rewrite Hread. by rewrite bool_decide_eq_true_2.
    + intros j Hj. rewrite Hread. by rewrite bool_decide_eq_false_2.
Qed.

Lemma setIsObs_then_isObs_witness :
  let m := mkMolecule true 0 1 false 1 [0] [None] [-1] [0; 0; 0] [[]] in
  ∃ m', setIsObs m 1 1 = Some m' ∧
        isObs m' 1 = Some 1 ∧ isObs m' 0 = Some 0 ∧ isObs m' 2 = Some 0 ∧
        setIsObs m 3 1 = None ∧ setIsObs m (-1) 1 = None.
Proof.
  intros m.
  destruct (setIsObs m 1 1) as [m'|] eqn:Hset;
    [|exfalso; vm_compute in Hset; discriminate Hset].
  exists m'. split; [reflexivity|].
  destruct (proj2 (setIsObs_then_isObs m 1 1) m' Hset) as (Hsame & Hother & _ & _).
  split; [exact Hsame|].
  split; [rewrite (Hother 0) by lia; reflexivity|].
  split; [rewrite (Hother 2) by lia; reflexivity|].
  split; reflexivity.
Defined.
